(** * The Open Floor parrot agent: envelope dispatch and echo responses

    A shallow embedding of [src/parrot-agent.ts] (the agent that is
    deployed) and of the earlier variant of the same file that builds the
    outbound envelope first and appends to its private [_events] field.

    JavaScript strings are kept as Rocq strings holding the UTF-8 bytes of
    the literal; the only string operations of the agent are concatenation
    and equality, which do not depend on the encoding. *)

From stdpp Require Import base option list strings gmap.
From Stdlib Require Import QArith.

Local Open Scope string_scope.
Local Open Scope list_scope.

(** ** A small JavaScript runtime: completions and the console

    The agent's methods are [async] functions run to completion one after
    the other ([await] on every call), so a computation is a function of
    the [console.error] calls made so far that either returns normally or
    throws. *)

Module Js.

(** A JavaScript [Error] object, by its [name] and its [message]. *)
Record Error : Type := mkError { name : string; message : string }.

Definition TypeError (message : string) : Error :=
  {| name := "TypeError"; message := message |}.

(** What a [throw] carries and a [catch] receives: an [Error] object, or a
    value that is no [Error] (kept as text). *)
Inductive Thrown : Type :=
| ThrownError (error : Error)
| ThrownValue (value : string).

Inductive Completion (A : Type) : Type :=
| Normal (a : A)
| Abrupt (e : Thrown).
Arguments Normal {A} a.
Arguments Abrupt {A} e.

(** One call of [console.error], by its arguments: the label and the
    value given after it, a caught value or a list of strings.  The text
    Node makes of the value (for an [Error]: its name, message and stack)
    is not part of the model. *)
Inductive ErrorCall : Type :=
| ErrorLogged (label : string) (error : Thrown)
| StringsLogged (label : string) (values : list string).

(** The calls of [console.error] so far, oldest first. *)
Definition Console : Type := list ErrorCall.

Definition M (A : Type) : Type := Console → Completion A * Console.

#[export] Instance M_ret : MRet M := λ A a c, (Normal a, c).

#[export] Instance M_bind : MBind M := λ A B f m c,
  match m c with
  | (Normal a, c') => f a c'
  | (Abrupt e, c') => (Abrupt e, c')
  end.

Definition throw {A : Type} (e : Thrown) : M A := λ c, (Abrupt e, c).

(** [try { body } catch (error) { handler error }] *)
Definition try_catch {A : Type} (body : M A) (handler : Thrown → M A) : M A :=
  λ c,
    match body c with
    | (Normal a, c') => (Normal a, c')
    | (Abrupt e, c') => handler e c'
    end.

(** [console.error(label, error)] *)
Definition console_error (label : string) (e : Thrown) : M unit :=
  λ c, (Normal tt, c ++ [ErrorLogged label e]).

(** [for (const x of l) { s = body s x }], the loop state passed along. *)
Fixpoint for_of {A S : Type} (l : list A) (body : S → A → M S) (s : S) : M S :=
  match l with
  | [] => mret s
  | x :: l' => s' ← body s x; for_of l' body s'
  end.

(** [Array.prototype.join] on an array of strings. *)
Fixpoint join (sep : string) (l : list string) : string :=
  match l with
  | [] => ""
  | [x] => x
  | x :: l' => x +:+ sep +:+ join sep l'
  end.

End Js.
Import Js.

(** ** The protocol library's value types, as far as the agent touches them *)

(** The [to] field of an event: both parts are optional. *)
Record To : Type := mkTo {
  to_speakerUri : option string;
  to_serviceUrl : option string
}.

(** [token: any] in the source: an element of the tokens array is an
    object with a string [value], or [null] / [undefined], on which the
    property access [token.value] throws. *)
Record Token : Type := mkToken { value : string }.

Inductive TokenSlot : Type :=
| SlotToken (token : Token)
| SlotNull
| SlotUndefined.

(** A feature; [tokens] may be missing (the source tests
    [!textFeature.tokens]). *)
Record Feature : Type := mkFeature { tokens : option (list TokenSlot) }.

(** The dialog payload; [features] is a [Map] by feature name and may be
    missing (the source reads it with [?.]). *)
Record DialogEvent : Type := mkDialogEvent {
  features : option (gmap string Feature)
}.

Record UtteranceEvent : Type := mkUtteranceEvent {
  utterance_to : option To;
  dialogEvent : DialogEvent
}.

(** An inbound event: an utterance, or any other kind with its
    [eventType] tag. *)
Inductive Event : Type :=
| Utterance (u : UtteranceEvent)
| OtherEvent (eventType : string) (to : option To).

Definition event_eventType (event : Event) : string :=
  match event with
  | Utterance _ => "utterance"
  | OtherEvent eventType _ => eventType
  end.

Definition event_to (event : Event) : option To :=
  match event with
  | Utterance u => utterance_to u
  | OtherEvent _ to => to
  end.

(** Modelled from the spec: the library's type guard [isUtteranceEvent]
    ("a predicate for identifying utterance-kind events"); it is missing
    from the sources.  When it holds the event is narrowed to an
    [UtteranceEvent], which is what is returned here. *)
Definition isUtteranceEvent (event : Event) : option UtteranceEvent :=
  match event with
  | Utterance u => Some u
  | OtherEvent _ _ => None
  end.

Record Identification : Type := mkIdentification {
  id_speakerUri : string;
  id_serviceUrl : string;
  organization : string;
  conversationalName : string;
  synopsis : string
}.

Record Capability : Type := mkCapability {
  keyphrases : list string;
  descriptions : list string
}.

Record ManifestOptions : Type := mkManifestOptions {
  identification : Identification;
  capabilities : list Capability
}.

(** Modelled from the spec: the library's [Manifest.toObject], missing
    from the sources ("the single manifest (serialized form)").  The
    serialized form is kept symbolic: it is the serialization of the
    manifest it was called on. *)
Inductive ManifestObject : Type :=
| Manifest_toObject (manifest : ManifestOptions).

Record Parameters : Type := mkParameters {
  servicingManifests : list ManifestObject
}.

(** The argument of the library's [createTextUtterance]. *)
Record TextUtteranceOptions : Type := mkTextUtteranceOptions {
  opt_speakerUri : string;
  opt_text : string;
  opt_to : option To;
  opt_confidence : option Q
}.

(** What the agent puts in [responseEvents: any[]].

    Modelled from the spec: the library's [createTextUtterance] ("a
    constructor for text-utterance response events taking
    {speakerUri, text, to, confidence?}") is missing from the sources; the
    event it builds is represented by the options it was built from.  The
    other constructor is the object literal of [processEnvelope]. *)
Inductive ResponseEvent : Type :=
| createTextUtterance (options : TextUtteranceOptions)
| EventObject (eventType : string) (to : To) (parameters : Parameters).

(** JavaScript truthiness of a response event: every object is truthy. *)
Definition truthy (responseEvent : ResponseEvent) : bool := true.

Record Schema : Type := mkSchema { version : string }.
Record Conversation : Type := mkConversation { id : string }.
Record Sender : Type := mkSender {
  sender_speakerUri : string;
  sender_serviceUrl : option string
}.

(** Modelled from the spec: the library's [Envelope] class ("envelope
    construction from {schema, conversation, sender, events}"), missing
    from the sources.  The event list is held in the private field
    [_events], which the [events] getter returns; the earlier variant of
    the agent writes to that field. *)
Record Envelope (E : Type) : Type := new_Envelope {
  schema : Schema;
  conversation : Conversation;
  sender : Sender;
  _events : list E
}.
Arguments new_Envelope {E} _ _ _ _.
Arguments schema {E} _.
Arguments conversation {E} _.
Arguments sender {E} _.
Arguments _events {E} _.

Definition events {E : Type} (envelope : Envelope E) : list E := _events envelope.

(** [(envelope as any)._events = l] *)
Definition set__events {E : Type} (envelope : Envelope E) (l : list E) : Envelope E :=
  new_Envelope (schema envelope) (conversation envelope) (sender envelope) l.

(** ** The agent *)

(** Modelled from the spec: the library's [BotAgent] base class, missing
    from the sources, keeps the manifest it is constructed with
    ([super(manifest)]) and exposes the identity found in its
    identification as [this.speakerUri] and [this.serviceUrl]. *)
Record ParrotAgent : Type := new_ParrotAgent { manifest : ManifestOptions }.

Definition speakerUri (this : ParrotAgent) : string :=
  id_speakerUri (identification (manifest this)).

Definition serviceUrl (this : ParrotAgent) : string :=
  id_serviceUrl (identification (manifest this)).

Record ParrotAgentOptions : Type := mkParrotAgentOptions {
  pa_speakerUri : string;
  pa_serviceUrl : string;
  pa_name : option string;
  pa_organization : option string;
  pa_description : option string
}.

Definition createParrotAgent (options : ParrotAgentOptions) : ParrotAgent :=
  let name := default "Parrot Agent" (pa_name options) in
  let organization := default "OpenFloor Demo" (pa_organization options) in
  let description :=
    default "A simple parrot agent that echoes back messages with a parrot emoji"
            (pa_description options) in
  let manifest :=
    {| identification :=
         {| id_speakerUri := pa_speakerUri options;
            id_serviceUrl := pa_serviceUrl options;
            organization := organization;
            conversationalName := name;
            synopsis := description |};
       capabilities :=
         [ {| keyphrases := ["echo"; "repeat"; "parrot"; "say"];
              descriptions :=
                [ "Echoes back any text message with a parrot emoji";
                  "Repeats user input verbatim";
                  "Simple text mirroring functionality" ] |} ] |} in
  new_ParrotAgent manifest.

(** The test both variants make on every event of the loop:
    [!event.to || event.to.speakerUri === this.speakerUri ||
     event.to.serviceUrl === this.serviceUrl]. *)
Definition addressedToMe (this : ParrotAgent) (event : Event) : bool :=
  match event_to event with
  | None => true
  | Some to =>
      bool_decide (to_speakerUri to = Some (speakerUri this))
      || bool_decide (to_serviceUrl to = Some (serviceUrl this))
  end.

(** [(token: any) => token.value] *)
Definition token_value (token : TokenSlot) : M string :=
  match token with
  | SlotToken t => mret (value t)
  | SlotNull =>
      throw (ThrownError
               (TypeError "Cannot read properties of null (reading 'value')"))
  | SlotUndefined =>
      throw (ThrownError
               (TypeError "Cannot read properties of undefined (reading 'value')"))
  end.

(** [dialogEvent.features?.get('text')] *)
Definition get_text_feature (dialogEvent : DialogEvent) : option Feature :=
  match features dialogEvent with
  | None => None
  | Some m => m !! "text"
  end.

Definition chirp_text : string := "🦜 *chirp* I can only repeat text messages!".
Definition confused_chirp_text : string :=
  "🦜 *confused chirp* Something went wrong while trying to repeat that!".
Definition parrot_prefix : string := "🦜 ".

(** [{ speakerUri: inEnvelope.sender.speakerUri }] *)
Definition reply_to (inEnvelope : Envelope Event) : To :=
  {| to_speakerUri := Some (sender_speakerUri (sender inEnvelope));
     to_serviceUrl := None |}.

(** *** [src/parrot-agent.ts] *)

Module ParrotAgentTs.

(** The [try] block of [_handleParrotUtterance]. *)
Definition _handleParrotUtterance_try
    (this : ParrotAgent) (event : UtteranceEvent) (inEnvelope : Envelope Event)
  : M ResponseEvent :=
  let dialogEvent := dialogEvent event in
  let textFeature := get_text_feature dialogEvent in
  match textFeature with
  | None =>
      mret (createTextUtterance
              {| opt_speakerUri := speakerUri this;
                 opt_text := chirp_text;
                 opt_to := Some (reply_to inEnvelope);
                 opt_confidence := None |})
  | Some textFeature =>
      match tokens textFeature with
      | None | Some [] =>
          mret (createTextUtterance
                  {| opt_speakerUri := speakerUri this;
                     opt_text := chirp_text;
                     opt_to := Some (reply_to inEnvelope);
                     opt_confidence := None |})
      | Some tokens =>
          values ← mapM token_value tokens;
          let originalText := join "" values in
          let parrotText := parrot_prefix +:+ originalText in
          mret (createTextUtterance
                  {| opt_speakerUri := speakerUri this;
                     opt_text := parrotText;
                     opt_to := Some (reply_to inEnvelope);
                     opt_confidence := Some 1%Q |})
      end
  end.

(** The [catch (error)] block of [_handleParrotUtterance]. *)
Definition _handleParrotUtterance_catch
    (this : ParrotAgent) (inEnvelope : Envelope Event) (error : Thrown)
  : M ResponseEvent :=
  _ ← console_error "Error in parrot utterance handling:" error;
  mret (createTextUtterance
          {| opt_speakerUri := speakerUri this;
             opt_text := confused_chirp_text;
             opt_to := Some (reply_to inEnvelope);
             opt_confidence := None |}).

Definition _handleParrotUtterance
    (this : ParrotAgent) (event : UtteranceEvent) (inEnvelope : Envelope Event)
  : M ResponseEvent :=
  try_catch (_handleParrotUtterance_try this event inEnvelope)
            (_handleParrotUtterance_catch this inEnvelope).

(** One turn of the [for] loop of [processEnvelope]; [responseEvents] is
    the array the loop pushes to. *)
Definition processEnvelope_body
    (this : ParrotAgent) (inEnvelope : Envelope Event)
    (responseEvents : list ResponseEvent) (event : Event)
  : M (list ResponseEvent) :=
  let addressedToMe := addressedToMe this event in
  match (if addressedToMe then isUtteranceEvent event else None) with
  | Some event =>
      responseEvent ← _handleParrotUtterance this event inEnvelope;
      if truthy responseEvent
      then mret (responseEvents ++ [responseEvent])
      else mret responseEvents
  | None =>
      if addressedToMe && bool_decide (event_eventType event = "getManifests")
      then
        mret (responseEvents ++
                [EventObject "publishManifests"
                   (reply_to inEnvelope)
                   {| servicingManifests := [Manifest_toObject (manifest this)] |}])
      else mret responseEvents
  end.

Definition processEnvelope (this : ParrotAgent) (inEnvelope : Envelope Event)
  : M (Envelope ResponseEvent) :=
  responseEvents ←
    for_of (events inEnvelope) (processEnvelope_body this inEnvelope) [];
  mret (new_Envelope
          {| version := version (schema inEnvelope) |}
          {| id := id (conversation inEnvelope) |}
          {| sender_speakerUri := speakerUri this;
             sender_serviceUrl := Some (serviceUrl this) |}
          responseEvents).

End ParrotAgentTs.

(** *** The earlier variant: the envelope is built first and extended *)

Module ParrotAgentAlt.

(** [(outEnvelope as any)._events = [...outEnvelope.events, responseEvent]] *)
Definition append_event
    (outEnvelope : Envelope ResponseEvent) (responseEvent : ResponseEvent)
  : Envelope ResponseEvent :=
  set__events outEnvelope (events outEnvelope ++ [responseEvent]).

(** The [try] block of [_handleParrotUtterance]; the envelope it returns
    is [outEnvelope] after the assignment to its [_events]. *)
Definition _handleParrotUtterance_try
    (this : ParrotAgent) (event : UtteranceEvent) (inEnvelope : Envelope Event)
    (outEnvelope : Envelope ResponseEvent)
  : M (Envelope ResponseEvent) :=
  let dialogEvent := dialogEvent event in
  let textFeature := get_text_feature dialogEvent in
  match textFeature with
  | None =>
      let responseEvent :=
        createTextUtterance
          {| opt_speakerUri := speakerUri this;
             opt_text := chirp_text;
             opt_to := Some (reply_to inEnvelope);
             opt_confidence := None |} in
      mret (append_event outEnvelope responseEvent)
  | Some textFeature =>
      match tokens textFeature with
      | None | Some [] =>
          let responseEvent :=
            createTextUtterance
              {| opt_speakerUri := speakerUri this;
                 opt_text := chirp_text;
                 opt_to := Some (reply_to inEnvelope);
                 opt_confidence := None |} in
          mret (append_event outEnvelope responseEvent)
      | Some tokens =>
          values ← mapM token_value tokens;
          let originalText := join "" values in
          let parrotText := parrot_prefix +:+ originalText in
          let responseEvent :=
            createTextUtterance
              {| opt_speakerUri := speakerUri this;
                 opt_text := parrotText;
                 opt_to := Some (reply_to inEnvelope);
                 opt_confidence := Some 1%Q |} in
          mret (append_event outEnvelope responseEvent)
      end
  end.

(** The [catch (error)] block. *)
Definition _handleParrotUtterance_catch
    (this : ParrotAgent) (inEnvelope : Envelope Event)
    (outEnvelope : Envelope ResponseEvent) (error : Thrown)
  : M (Envelope ResponseEvent) :=
  _ ← console_error "Error in parrot utterance handling:" error;
  let errorResponse :=
    createTextUtterance
      {| opt_speakerUri := speakerUri this;
         opt_text := confused_chirp_text;
         opt_to := Some (reply_to inEnvelope);
         opt_confidence := None |} in
  mret (append_event outEnvelope errorResponse).

Definition _handleParrotUtterance
    (this : ParrotAgent) (event : UtteranceEvent) (inEnvelope : Envelope Event)
    (outEnvelope : Envelope ResponseEvent)
  : M (Envelope ResponseEvent) :=
  try_catch (_handleParrotUtterance_try this event inEnvelope outEnvelope)
            (_handleParrotUtterance_catch this inEnvelope outEnvelope).

(** One turn of the [for] loop; the loop state is [outEnvelope]. *)
Definition processEnvelope_body
    (this : ParrotAgent) (inEnvelope : Envelope Event)
    (outEnvelope : Envelope ResponseEvent) (event : Event)
  : M (Envelope ResponseEvent) :=
  let addressedToMe := addressedToMe this event in
  match (if addressedToMe then isUtteranceEvent event else None) with
  | Some event => _handleParrotUtterance this event inEnvelope outEnvelope
  | None => mret outEnvelope
  end.

Definition processEnvelope (this : ParrotAgent) (inEnvelope : Envelope Event)
  : M (Envelope ResponseEvent) :=
  let outEnvelope :=
    new_Envelope
      {| version := version (schema inEnvelope) |}
      {| id := id (conversation inEnvelope) |}
      {| sender_speakerUri := speakerUri this;
         sender_serviceUrl := Some (serviceUrl this) |}
      [] in
  for_of (events inEnvelope) (processEnvelope_body this inEnvelope) outEnvelope.

End ParrotAgentAlt.

(** ** Reading the responses, and the dispatch as the specification words it *)

(** The [to] field of a response event. *)
Definition response_to (responseEvent : ResponseEvent) : option To :=
  match responseEvent with
  | createTextUtterance options => opt_to options
  | EventObject _ to _ => Some to
  end.

(** A tokens array all of whose elements are token objects. *)
Definition slot_token (slot : TokenSlot) : option Token :=
  match slot with
  | SlotToken t => Some t
  | SlotNull | SlotUndefined => None
  end.

(** The values of the tokens, in order, one after the other. *)
Definition concat_values (ts : list Token) : string :=
  foldr (λ t rest, value t +:+ rest) "" ts.

(** A text utterance of the agent in reply to the sender of [inEnvelope]. *)
Definition text_reply (this : ParrotAgent) (inEnvelope : Envelope Event)
    (text : string) (confidence : option Q) : ResponseEvent :=
  createTextUtterance
    {| opt_speakerUri := speakerUri this;
       opt_text := text;
       opt_to := Some (reply_to inEnvelope);
       opt_confidence := confidence |}.

(** The [publishManifests] reply. *)
Definition publish_manifests (this : ParrotAgent) (inEnvelope : Envelope Event)
  : ResponseEvent :=
  EventObject "publishManifests" (reply_to inEnvelope)
    {| servicingManifests := [Manifest_toObject (manifest this)] |}.

(** The echo transform, following the four steps of the specification:
    no text feature or no tokens gives the chirp; tokens give the echo
    with confidence 1; a failure while reading the tokens gives the
    confused chirp. *)
Definition spec_echo_transform (this : ParrotAgent) (inEnvelope : Envelope Event)
    (event : UtteranceEvent) : ResponseEvent :=
  match get_text_feature (dialogEvent event) with
  | None => text_reply this inEnvelope chirp_text None
  | Some textFeature =>
      match tokens textFeature with
      | None | Some [] => text_reply this inEnvelope chirp_text None
      | Some slots =>
          match mapM slot_token slots with
          | Some ts =>
              text_reply this inEnvelope ("🦜 " +:+ concat_values ts) (Some 1%Q)
          | None => text_reply this inEnvelope confused_chirp_text None
          end
      end
  end.

(** What the specification has one inbound event contribute to the
    outbound sequence. *)
Definition spec_respond (this : ParrotAgent) (inEnvelope : Envelope Event)
    (event : Event) : list ResponseEvent :=
  if addressedToMe this event then
    match event with
    | Utterance u => [spec_echo_transform this inEnvelope u]
    | OtherEvent eventType _ =>
        if bool_decide (eventType = "getManifests")
        then [publish_manifests this inEnvelope]
        else []
    end
  else [].

(** The inbound envelope with another event sequence. *)
Definition with_events (inEnvelope : Envelope Event) (l : list Event) : Envelope Event :=
  set__events inEnvelope l.

(** ** Concrete inputs

    The agent that [server.ts] creates, and envelopes from a user. *)

Definition polly : ParrotAgent :=
  createParrotAgent
    {| pa_speakerUri := "tag:openfloor-demo.com,2025:parrot-agent";
       pa_serviceUrl := "https://kmhhywpw32.us-east-1.awsapprunner.com/";
       pa_name := Some "Polly the Parrot";
       pa_organization := Some "OpenFloor Demo Corp";
       pa_description := Some "A friendly parrot that repeats everything you say!" |}.

Definition user_sender : Sender :=
  {| sender_speakerUri := "tag:example.com,2025:user";
     sender_serviceUrl := Some "https://example.com/user" |}.

Definition envelope_of (l : list Event) : Envelope Event :=
  new_Envelope {| version := "1.0.0" |} {| id := "conversation-1" |} user_sender l.

Definition text_feature (slots : list TokenSlot) : Feature :=
  {| tokens := Some slots |}.

Definition dialog_with (slots : list TokenSlot) : DialogEvent :=
  {| features := Some {[ "text" := text_feature slots ]} |}.

(** An utterance whose text feature holds one token per given string. *)
Definition text_utterance (to : option To) (texts : list string) : UtteranceEvent :=
  {| utterance_to := to;
     dialogEvent := dialog_with (SlotToken ∘ mkToken <$> texts) |}.

(** An utterance whose tokens array holds a [null]. *)
Definition broken_utterance : UtteranceEvent :=
  {| utterance_to := None;
     dialogEvent := dialog_with [SlotToken (mkToken "Hello"); SlotNull] |}.

(** An utterance without any feature map. *)
Definition featureless_utterance : UtteranceEvent :=
  {| utterance_to := None; dialogEvent := {| features := None |} |}.

Definition to_polly : To :=
  {| to_speakerUri := Some "tag:openfloor-demo.com,2025:parrot-agent";
     to_serviceUrl := None |}.

Definition to_somebody_else : To :=
  {| to_speakerUri := Some "tag:example.com,2025:somebody-else";
     to_serviceUrl := None |}.

(** ** [src/server.ts]: the HTTP side

    What a handler does to the Express response object is kept as the list
    of the calls it makes on [res], in order. *)

(** [process.env.X || fallback]: an unset or empty variable is falsy. *)
Definition env_or (value : option string) (fallback : string) : string :=
  match value with
  | None => fallback
  | Some s => if bool_decide (s = "") then fallback else s
  end.

(** The [parrotAgent] constant of the server, by the [SERVICE_URL] of the
    environment it is started in. *)
Definition parrotAgent (SERVICE_URL : option string) : ParrotAgent :=
  createParrotAgent
    {| pa_speakerUri := "tag:openfloor-demo.com,2025:parrot-agent";
       pa_serviceUrl :=
         env_or SERVICE_URL "https://kmhhywpw32.us-east-1.awsapprunner.com/";
       pa_name := Some "Polly the Parrot";
       pa_organization := Some "OpenFloor Demo Corp";
       pa_description := Some "A friendly parrot that repeats everything you say!" |}.

(** Modelled from the spec: the serialization of the outbound envelope
    ([outEnvelope.toPayload().toObject()], "envelope serialization to a
    transportable payload object"), missing from the sources; kept
    symbolic. *)
Inductive PayloadObject : Type :=
| Payload_toObject (openFloor : Envelope ResponseEvent).

(** The parsed payload: [payload.openFloor] is the inbound envelope. *)
Record Payload : Type := mkPayload { openFloor : Envelope Event }.

(** Modelled from the spec: the result of the library's
    [validateAndParsePayload] ("{valid, payload|errors}"); [payload] is
    optional in it, the source reads it with [!]. *)
Record ValidationResult : Type := mkValidationResult {
  valid : bool;
  payload : option Payload;
  errors : list string
}.

(** The JSON bodies the server sends: the object literals of the source,
    and the serialized payload. *)
Inductive ResponseBody : Type :=
| InvalidPayloadBody (error : string) (details : list string)
| ServerErrorBody (error : string) (message : string)
| PayloadBody (response : PayloadObject).

(** A call on the Express response object. *)
Inductive ResCall : Type :=
| res_header (field : string) (value : string)
| res_status (code : nat)
| res_json (body : ResponseBody)
| res_sendStatus (code : nat).

(** What a middleware does last: it calls [next()] or it has answered. *)
Inductive Outcome : Type :=
| Next
| Answered.

(** The request, as far as the handlers read it: [req.headers.origin],
    [req.method] and [req.body]. *)
Record Request (Json : Type) : Type := mkRequest {
  req_origin : option string;
  req_method : string;
  req_body : Json
}.
Arguments mkRequest {Json} _ _ _.
Arguments req_origin {Json} _.
Arguments req_method {Json} _.
Arguments req_body {Json} _.

Definition allowedOrigin : string := "https://openfloor.azettl.net".

(** The CORS middleware: the calls it makes on [res], and whether it goes
    on with [next()]. *)
Definition cors_middleware {Json : Type} (req : Request Json)
  : list ResCall * Outcome :=
  let headers :=
    if bool_decide (req_origin req = Some allowedOrigin)
    then [ res_header "Access-Control-Allow-Origin" allowedOrigin;
           res_header "Access-Control-Allow-Methods" "POST, OPTIONS";
           res_header "Access-Control-Allow-Headers" "Content-Type" ]
    else [] in
  if bool_decide (req_method req = "OPTIONS")
  then (headers ++ [res_sendStatus 200], Answered)
  else (headers, Next).

(** [console.log] writes to standard output; it is no [console.error]
    call, and the console does not record it. *)
Definition console_log (line : string) : M unit := λ c, (Normal tt, c).

(** [console.error(label, values)] for a list of strings. *)
Definition console_error_strings (label : string) (values : list string) : M unit :=
  λ c, (Normal tt, c ++ [StringsLogged label values]).

(** [error instanceof Error]: when it holds the caught value is narrowed
    to the [Error] object, which is what is returned here. *)
Definition instanceof_Error (error : Thrown) : option Error :=
  match error with
  | ThrownError e => Some e
  | ThrownValue _ => None
  end.

(** [validationResult.payload!.openFloor]: the [!] is erased at run time,
    reading [openFloor] of [undefined] throws. *)
Definition payload_openFloor (payload : option Payload) : M (Envelope Event) :=
  match payload with
  | Some p => mret (openFloor p)
  | None =>
      throw (ThrownError
               (TypeError "Cannot read properties of undefined (reading 'openFloor')"))
  end.

Section Server.
(** The parts of the runtime and of the protocol library the route calls:
    the type of parsed JSON bodies with [JSON.stringify] (plain and
    indented) and the library's [validateAndParsePayload], which may
    throw. *)
Variable Json : Type.
Variable JSON_stringify : Json → string.
Variable JSON_stringify_indented : Json → string.
Variable validateAndParsePayload : string → M ValidationResult.
Variable SERVICE_URL : option string.

(** The [try] block of the [app.post('/')] route. *)
Definition post_root_try (req : Request Json) : M (list ResCall) :=
  _ ← console_log ("Received request: " +:+ JSON_stringify_indented (req_body req));
  validationResult ← validateAndParsePayload (JSON_stringify (req_body req));
  if negb (valid validationResult)
  then
    _ ← console_error_strings "Validation errors:" (errors validationResult);
    mret [ res_status 400;
           res_json (InvalidPayloadBody "Invalid OpenFloor payload"
                                        (errors validationResult)) ]
  else
    inEnvelope ← payload_openFloor (payload validationResult);
    _ ← console_log ("Processing envelope from: "
                      +:+ sender_speakerUri (sender inEnvelope));
    outEnvelope ←
      ParrotAgentTs.processEnvelope (parrotAgent SERVICE_URL) inEnvelope;
    let response := Payload_toObject outEnvelope in
    _ ← console_log "Sending response:";
    mret [ res_json (PayloadBody response) ].

(** The [catch (error)] block of the route. *)
Definition post_root_catch (error : Thrown) : M (list ResCall) :=
  _ ← console_error "Error processing request:" error;
  mret [ res_status 500;
         res_json (ServerErrorBody "Internal server error"
                     (match instanceof_Error error with
                      | Some error => message error
                      | None => "Unknown error"
                      end)) ].

(** [app.post('/', async (req, res) => ...)] *)
Definition post_root (req : Request Json) : M (list ResCall) :=
  try_catch (post_root_try req) post_root_catch.

End Server.

(** ** Further readings of the dispatch *)

(** The response is a text utterance built by the library, not an object
    literal. *)
Definition is_text_utterance (responseEvent : ResponseEvent) : bool :=
  match responseEvent with
  | createTextUtterance _ => true
  | EventObject _ _ _ => false
  end.

(** The event is one the deployed agent answers: addressed to it, and an
    utterance or a manifest request. *)
Definition answered (this : ParrotAgent) (event : Event) : bool :=
  addressedToMe this event
  && match event with
     | Utterance _ => true
     | OtherEvent eventType _ => bool_decide (eventType = "getManifests")
     end.

(** The error reading the values of the slots throws: that of the first
    slot that is no token object. *)
Fixpoint first_error (slots : list TokenSlot) : option Error :=
  match slots with
  | [] => None
  | SlotToken _ :: slots' => first_error slots'
  | SlotNull :: _ =>
      Some (TypeError "Cannot read properties of null (reading 'value')")
  | SlotUndefined :: _ =>
      Some (TypeError "Cannot read properties of undefined (reading 'value')")
  end.

(** The error the [try] block of the handler throws on an utterance, if
    any: tokens are there and one of them is [null] or [undefined]. *)
Definition handler_error (event : UtteranceEvent) : option Error :=
  match get_text_feature (dialogEvent event) with
  | None => None
  | Some textFeature =>
      match tokens textFeature with
      | None => None
      | Some slots => first_error slots
      end
  end.

(** The [console.error] calls an inbound event leads to. *)
Definition logged (this : ParrotAgent) (event : Event) : list ErrorCall :=
  if addressedToMe this event then
    match event with
    | Utterance u =>
        match handler_error u with
        | Some e => [ErrorLogged "Error in parrot utterance handling:" (ThrownError e)]
        | None => []
        end
    | OtherEvent _ _ => []
    end
  else [].

(** Concrete validators for the route: one that rejects every body, one
    that accepts every body as the same envelope. *)
Definition reject_all (text : string) : M ValidationResult :=
  mret {| valid := false; payload := None; errors := ["not an Open Floor payload"] |}.

Definition accept_as (inEnvelope : Envelope Event) (text : string)
  : M ValidationResult :=
  mret {| valid := true; payload := Some {| openFloor := inEnvelope |}; errors := [] |}.

(** A validator that throws, and one that reports a valid payload without
    handing it over. *)
Definition failing_validator (text : string) : M ValidationResult :=
  throw (ThrownError (TypeError "payload could not be read")).

(** A validator that throws a string, which is no [Error]. *)
Definition string_throwing_validator (text : string) : M ValidationResult :=
  throw (ThrownValue "payload could not be read").

Definition forgetful_validator (text : string) : M ValidationResult :=
  mret {| valid := true; payload := None; errors := [] |}.

(** A request with the body as text. *)
Definition post_request (origin : option string) (body : string) : Request string :=
  {| req_origin := origin; req_method := "POST"; req_body := body |}.

Definition preflight_request (origin : option string) : Request string :=
  {| req_origin := origin; req_method := "OPTIONS"; req_body := "" |}.

(** ** The runtime *)

Section Runtime.
Context {A B : Type}.

Lemma bind_normal (m : M A) (f : A → M B) c a c' :
  m c = (Normal a, c') → (m ≫= f) c = f a c'.
Proof. intros H. unfold mbind, M_bind. by rewrite H. Qed.

Lemma bind_abrupt (m : M A) (f : A → M B) c e c' :
  m c = (Abrupt e, c') → (m ≫= f) c = (Abrupt e, c').
Proof. intros H. unfold mbind, M_bind. by rewrite H. Qed.

Lemma try_catch_normal (body : M A) handler c a c' :
  body c = (Normal a, c') → try_catch body handler c = (Normal a, c').
Proof. intros H. unfold try_catch. by rewrite H. Qed.

Lemma try_catch_abrupt (body : M A) handler c e c' :
  body c = (Abrupt e, c') → try_catch body handler c = handler e c'.
Proof. intros H. unfold try_catch. by rewrite H. Qed.
End Runtime.

Lemma append_empty_r (x : string) : x +:+ "" = x.
Proof.
  induction x as [|a x IH]; [done|].
  change (String a (x +:+ "") = String a x). by rewrite IH.
Qed.

Lemma join_no_separator (l : list string) :
  join "" l = foldr String.append "" l.
Proof.
  induction l as [|x l IH]; [done|].
  destruct l as [|y l].
  - cbn. by rewrite append_empty_r.
  - change (join "" (x :: y :: l)) with (x +:+ "" +:+ join "" (y :: l)).
    rewrite IH. done.
Qed.

Lemma concat_values_join (ts : list Token) :
  join "" (value <$> ts) = concat_values ts.
Proof.
  rewrite join_no_separator. unfold concat_values.
  induction ts as [|t ts IH]; [done|].
  rewrite fmap_cons. simpl. by f_equal.
Qed.

Lemma mapM_cons_run {A B : Type} (f : A → M B) (x : A) (l : list A) :
  mapM f (x :: l) = (y ← f x; k ← mapM f l; mret (y :: k)).
Proof. reflexivity. Qed.

(** Reading the values of an array of token objects succeeds and leaves
    the console alone. *)
Lemma mapM_token_value_tokens (ts : list Token) c :
  mapM token_value (SlotToken <$> ts) c = (Normal (value <$> ts), c).
Proof.
  induction ts as [|t ts IH]; [done|].
  rewrite !fmap_cons, mapM_cons_run.
  erewrite bind_normal; [|reflexivity].
  erewrite bind_normal; [|exact IH]. done.
Qed.

(** Reading the values either succeeds on token objects or throws at the
    first [null] or [undefined]; the console is untouched either way. *)
Lemma mapM_token_value_run (slots : list TokenSlot) c :
  match mapM slot_token slots with
  | Some ts => mapM token_value slots c = (Normal (value <$> ts), c)
  | None => ∃ e, mapM token_value slots c = (Abrupt e, c)
  end.
Proof.
  induction slots as [|s slots IH]; [done|].
  rewrite !mapM_cons_run.
  destruct s as [t| |]; simpl.
  - destruct (mapM slot_token slots) as [ts|] eqn:E; simpl.
    + erewrite bind_normal; [|reflexivity].
      erewrite bind_normal; [|exact IH]. done.
    + destruct IH as [e He]. exists e.
      erewrite bind_normal; [|reflexivity].
      erewrite bind_abrupt; [|exact He]. done.
  - eexists. reflexivity.
  - eexists. reflexivity.
Qed.

(** ** The deployed agent against the specification's dispatch *)

Section Dispatch.
Variable this : ParrotAgent.
Variable inEnvelope : Envelope Event.

(** The handler always returns, and what it returns is the echo
    transform of the specification. *)
Lemma handleParrotUtterance_run (event : UtteranceEvent) (c : Console) :
  ∃ c', ParrotAgentTs._handleParrotUtterance this event inEnvelope c
        = (Normal (spec_echo_transform this inEnvelope event), c').
Proof.
  unfold ParrotAgentTs._handleParrotUtterance,
    ParrotAgentTs._handleParrotUtterance_try, spec_echo_transform.
  destruct (get_text_feature (dialogEvent event)) as [textFeature|];
    [|by eexists].
  destruct (tokens textFeature) as [[|s slots]|]; [by eexists| |by eexists].
  pose proof (mapM_token_value_run (s :: slots) c) as Hrun.
  destruct (mapM slot_token (s :: slots)) as [ts|].
  - eexists. apply try_catch_normal.
    erewrite bind_normal; [|exact Hrun].
    by rewrite concat_values_join.
  - destruct Hrun as [e He].
    erewrite try_catch_abrupt; [|by erewrite bind_abrupt].
    by eexists.
Qed.

(** One turn of the loop appends the specification's responses to the
    event and never throws. *)
Lemma processEnvelope_body_run (responseEvents : list ResponseEvent)
    (event : Event) (c : Console) :
  ∃ c', ParrotAgentTs.processEnvelope_body this inEnvelope responseEvents event c
        = (Normal (responseEvents ++ spec_respond this inEnvelope event), c').
Proof.
  unfold ParrotAgentTs.processEnvelope_body, spec_respond.
  destruct (addressedToMe this event); [|exists c; by rewrite app_nil_r].
  destruct event as [u|eventType to]; simpl.
  - destruct (handleParrotUtterance_run u c) as [c' Hc'].
    exists c'. by erewrite bind_normal.
  - exists c. case_bool_decide; [done | by rewrite app_nil_r].
Qed.

Lemma for_of_body_run (l : list Event) :
  ∀ (responseEvents : list ResponseEvent) (c : Console),
    ∃ c', for_of l (ParrotAgentTs.processEnvelope_body this inEnvelope)
            responseEvents c
          = (Normal (responseEvents ++ flat_map (spec_respond this inEnvelope) l), c').
Proof.
  induction l as [|event l IH]; intros responseEvents c.
  - exists c. simpl. by rewrite app_nil_r.
  - destruct (processEnvelope_body_run responseEvents event c) as [c1 H1].
    destruct (IH (responseEvents ++ spec_respond this inEnvelope event) c1)
      as [c2 H2].
    exists c2. simpl. erewrite bind_normal; [|exact H1].
    by rewrite H2, <- app_assoc.
Qed.

(** [processEnvelope] returns the envelope of the specification. *)
Lemma processEnvelope_run (c : Console) :
  ∃ c', ParrotAgentTs.processEnvelope this inEnvelope c
        = (Normal (new_Envelope
                     {| version := version (schema inEnvelope) |}
                     {| id := id (conversation inEnvelope) |}
                     {| sender_speakerUri := speakerUri this;
                        sender_serviceUrl := Some (serviceUrl this) |}
                     (flat_map (spec_respond this inEnvelope) (events inEnvelope))),
           c').
Proof.
  destruct (for_of_body_run (events inEnvelope) [] c) as [c' Hc'].
  exists c'. unfold ParrotAgentTs.processEnvelope.
  by erewrite bind_normal.
Qed.

End Dispatch.

(** The responses depend on the inbound envelope through its sender only. *)
Lemma spec_respond_with_events this inEnvelope l event :
  spec_respond this (with_events inEnvelope l) event
  = spec_respond this inEnvelope event.
Proof. reflexivity. Qed.

Lemma spec_echo_transform_with_events this inEnvelope l event :
  spec_echo_transform this (with_events inEnvelope l) event
  = spec_echo_transform this inEnvelope event.
Proof. reflexivity. Qed.

(** The echo transform always answers with a text utterance. *)
Lemma spec_echo_transform_utterance this inEnvelope event :
  ∃ options, spec_echo_transform this inEnvelope event = createTextUtterance options.
Proof.
  unfold spec_echo_transform, text_reply. repeat case_match; by eexists.
Qed.

(** The loop over a concatenation is the loop over its parts. *)
Lemma for_of_app {A S : Type} (body : S → A → M S) (l1 l2 : list A) :
  ∀ s c, for_of (l1 ++ l2) body s c = (for_of l1 body s ≫= for_of l2 body) c.
Proof.
  induction l1 as [|x l1 IH]; intros s c; [done|].
  simpl. unfold mbind, M_bind.
  destruct (body s x c) as [[s'|e] c']; [|done].
  rewrite IH. done.
Qed.

(** Where an addressed event sits in the inbound sequence, its responses
    sit in the outbound sequence. *)
Lemma processEnvelope_at this inEnvelope pre event post c :
  events inEnvelope = pre ++ event :: post →
  ∃ out c',
    ParrotAgentTs.processEnvelope this inEnvelope c = (Normal out, c')
    ∧ events out
      = flat_map (spec_respond this inEnvelope) pre
        ++ spec_respond this inEnvelope event
        ++ flat_map (spec_respond this inEnvelope) post.
Proof.
  intros Hev. destruct (processEnvelope_run this inEnvelope c) as [c' Hc'].
  eexists _, c'. split; [exact Hc'|].
  unfold events at 1. simpl. rewrite Hev, flat_map_app. done.
Qed.

Lemma processEnvelope_unfold this inEnvelope c :
  ParrotAgentTs.processEnvelope this inEnvelope c
  = match for_of (events inEnvelope)
            (ParrotAgentTs.processEnvelope_body this inEnvelope) [] c with
    | (Normal responseEvents, c') =>
        (Normal (new_Envelope
                   {| version := version (schema inEnvelope) |}
                   {| id := id (conversation inEnvelope) |}
                   {| sender_speakerUri := speakerUri this;
                      sender_serviceUrl := Some (serviceUrl this) |}
                   responseEvents), c')
    | (Abrupt e, c') => (Abrupt e, c')
    end.
Proof. reflexivity. Qed.

(** Every response of the specification's dispatch carries the reply
    address built from the inbound sender. *)
Lemma spec_respond_reply_to this inEnvelope event :
  Forall (λ response, response_to response = Some (reply_to inEnvelope))
         (spec_respond this inEnvelope event).
Proof.
  unfold spec_respond.
  destruct (addressedToMe this event); [|constructor].
  destruct event as [u|eventType to].
  - repeat constructor.
    unfold spec_echo_transform, text_reply. by repeat case_match.
  - case_bool_decide; repeat constructor.
Qed.

Lemma Forall_flat_map_intro {A B : Type} (P : B → Prop) (f : A → list B) (l : list A) :
  (∀ x, Forall P (f x)) → Forall P (flat_map f l).
Proof.
  intros H. induction l as [|x l IH]; simpl; [constructor|].
  apply Forall_app. by split.
Qed.

(** The earlier variant's handler is the deployed handler followed by the
    assignment to [_events]. *)
Lemma alt_handleParrotUtterance_run this event inEnvelope outEnvelope c :
  ParrotAgentAlt._handleParrotUtterance this event inEnvelope outEnvelope c
  = match ParrotAgentTs._handleParrotUtterance this event inEnvelope c with
    | (Normal response, c') =>
        (Normal (ParrotAgentAlt.append_event outEnvelope response), c')
    | (Abrupt e, c') => (Abrupt e, c')
    end.
Proof.
  unfold ParrotAgentAlt._handleParrotUtterance,
    ParrotAgentAlt._handleParrotUtterance_try,
    ParrotAgentTs._handleParrotUtterance,
    ParrotAgentTs._handleParrotUtterance_try.
  destruct (get_text_feature (dialogEvent event)) as [textFeature|]; [|done].
  destruct (tokens textFeature) as [[|s slots]|]; [done| |done].
  unfold try_catch, mbind, M_bind.
  by destruct (mapM token_value (s :: slots) c) as [[values|e] c'].
Qed.

Lemma set__events_events {E : Type} (envelope : Envelope E) :
  set__events envelope (events envelope) = envelope.
Proof. by destruct envelope. Qed.

(** On an utterance, one turn of the earlier variant's loop is one turn of
    the deployed loop on the events gathered so far. *)
Lemma alt_processEnvelope_body_utterance this inEnvelope outEnvelope u c :
  ParrotAgentAlt.processEnvelope_body this inEnvelope outEnvelope (Utterance u) c
  = match ParrotAgentTs.processEnvelope_body this inEnvelope
            (events outEnvelope) (Utterance u) c with
    | (Normal responseEvents, c') =>
        (Normal (set__events outEnvelope responseEvents), c')
    | (Abrupt e, c') => (Abrupt e, c')
    end.
Proof.
  unfold ParrotAgentAlt.processEnvelope_body, ParrotAgentTs.processEnvelope_body.
  destruct (addressedToMe this (Utterance u)); simpl.
  - rewrite alt_handleParrotUtterance_run. unfold mbind, M_bind.
    by destruct (ParrotAgentTs._handleParrotUtterance this u inEnvelope c)
      as [[response|e] c'].
  - unfold mret, M_ret. by rewrite set__events_events.
Qed.

Lemma alt_for_of_utterances this inEnvelope (l : list Event) :
  Forall (λ event, is_Some (isUtteranceEvent event)) l →
  ∀ outEnvelope c,
    for_of l (ParrotAgentAlt.processEnvelope_body this inEnvelope) outEnvelope c
    = match for_of l (ParrotAgentTs.processEnvelope_body this inEnvelope)
              (events outEnvelope) c with
      | (Normal responseEvents, c') =>
          (Normal (set__events outEnvelope responseEvents), c')
      | (Abrupt e, c') => (Abrupt e, c')
      end.
Proof.
  induction 1 as [|event l [u Hu] _ IH]; intros outEnvelope c.
  - simpl. unfold mret, M_ret. by rewrite set__events_events.
  - destruct event as [u'|]; [|done].
    simpl. unfold mbind, M_bind.
    rewrite alt_processEnvelope_body_utterance.
    destruct (ParrotAgentTs.processEnvelope_body this inEnvelope
                (events outEnvelope) (Utterance u') c) as [[responseEvents|e] c1];
      [|done].
    rewrite IH. done.
Qed.

(** ** The claims *)

(** C1: for an addressed utterance whose dialog payload has a text feature
    with at least one token, the echo transform answers with the text
    "🦜 " followed by the values of all the tokens, in order and with
    nothing between them, and with confidence 1.0; the answer takes the
    place of the utterance in the outbound sequence. *)
Theorem C1_echo_prefix_and_confidence
    (this : ParrotAgent) (inEnvelope : Envelope Event) (event : UtteranceEvent)
    (m : gmap string Feature) (textFeature : Feature) (t : Token) (ts : list Token) :
  addressedToMe this (Utterance event) = true →
  features (dialogEvent event) = Some m →
  m !! "text" = Some textFeature →
  tokens textFeature = Some (SlotToken <$> t :: ts) →
  let response :=
    createTextUtterance
      {| opt_speakerUri := speakerUri this;
         opt_text := "🦜 " +:+ concat_values (t :: ts);
         opt_to := Some (reply_to inEnvelope);
         opt_confidence := Some 1%Q |} in
  (∀ c, ParrotAgentTs._handleParrotUtterance this event inEnvelope c
        = (Normal response, c))
  ∧ (∀ pre post c,
       events inEnvelope = pre ++ Utterance event :: post →
       ∃ out c',
         ParrotAgentTs.processEnvelope this inEnvelope c = (Normal out, c')
         ∧ events out
           = flat_map (spec_respond this inEnvelope) pre
             ++ response :: flat_map (spec_respond this inEnvelope) post).
Proof.
  intros Haddr Hfeatures Htext Htokens response.
  assert (Hhandle : ∀ c, ParrotAgentTs._handleParrotUtterance this event inEnvelope c
                         = (Normal response, c)).
  { intros c.
    unfold ParrotAgentTs._handleParrotUtterance,
      ParrotAgentTs._handleParrotUtterance_try, get_text_feature.
    rewrite Hfeatures, Htext, Htokens, fmap_cons.
    cbv beta iota zeta. rewrite <- fmap_cons.
    apply try_catch_normal.
    erewrite bind_normal; [|apply mapM_token_value_tokens].
    by rewrite concat_values_join. }
  split; [exact Hhandle|].
  intros pre post c Hev.
  destruct (processEnvelope_at this inEnvelope pre (Utterance event) post c Hev)
    as (out & c' & Hrun & Hout).
  exists out, c'. split; [exact Hrun|].
  rewrite Hout. do 2 f_equal.
  unfold spec_respond. rewrite Haddr.
  destruct (handleParrotUtterance_run this inEnvelope event c) as [c1 H1].
  rewrite Hhandle in H1. by injection H1 as <- _.
Qed.

(** The example of the specification: tokens "Hello, " and "world!". *)
Lemma C1_witness :
  ParrotAgentTs._handleParrotUtterance polly
    (text_utterance None ["Hello, "; "world!"])
    (envelope_of [Utterance (text_utterance None ["Hello, "; "world!"])]) []
  = (Normal (text_reply polly (envelope_of []) "🦜 Hello, world!" (Some 1%Q)), [])
  ∧ ∃ out c',
      ParrotAgentTs.processEnvelope polly
        (envelope_of [Utterance (text_utterance None ["Hello, "; "world!"])]) []
      = (Normal out, c')
      ∧ events out
        = [text_reply polly (envelope_of []) "🦜 Hello, world!" (Some 1%Q)].
Proof.
  assert (Htext :
            ({[ "text" := text_feature
                            (SlotToken ∘ mkToken <$> ["Hello, "; "world!"]) ]}
               : gmap string Feature) !! "text"
            = Some (text_feature (SlotToken ∘ mkToken <$> ["Hello, "; "world!"])))
    by (vm_compute; reflexivity).
  pose proof (C1_echo_prefix_and_confidence polly
                (envelope_of [Utterance (text_utterance None ["Hello, "; "world!"])])
                (text_utterance None ["Hello, "; "world!"])
                {[ "text" := text_feature
                               (SlotToken ∘ mkToken <$> ["Hello, "; "world!"]) ]}
                (text_feature (SlotToken ∘ mkToken <$> ["Hello, "; "world!"]))
                (mkToken "Hello, ") [mkToken "world!"]
                eq_refl eq_refl Htext eq_refl)
    as [Hhandle Hplace].
  split.
  - exact (Hhandle []).
  - exact (Hplace [] [] [] eq_refl).
Defined.

(** C2: an event is treated as addressed to the agent exactly when it has
    no [to], or its [to.speakerUri] is the agent's speakerUri, or its
    [to.serviceUrl] is the agent's serviceUrl.  An event that is not
    addressed leaves the response array and the console as they are and
    throws nothing, so the envelope without it is answered in the same way;
    an utterance without [to] has a text utterance appended for it. *)
Theorem C2_addressed_to_me
    (this : ParrotAgent) (inEnvelope : Envelope Event) (event : Event) :
  (addressedToMe this event = true ↔
     event_to event = None
     ∨ (∃ to, event_to event = Some to
              ∧ (to_speakerUri to = Some (speakerUri this)
                 ∨ to_serviceUrl to = Some (serviceUrl this))))
  ∧ (addressedToMe this event = false →
     (∀ responseEvents c,
        ParrotAgentTs.processEnvelope_body this inEnvelope responseEvents event c
        = (Normal responseEvents, c))
     ∧ (∀ pre post c,
          ParrotAgentTs.processEnvelope this
            (with_events inEnvelope (pre ++ event :: post)) c
          = ParrotAgentTs.processEnvelope this
              (with_events inEnvelope (pre ++ post)) c))
  ∧ (∀ u, event = Utterance u → utterance_to u = None →
     (∀ responseEvents c, ∃ options c',
        ParrotAgentTs.processEnvelope_body this inEnvelope responseEvents event c
        = (Normal (responseEvents ++ [createTextUtterance options]), c'))
     ∧ (∀ c, ∃ out c' options,
          ParrotAgentTs.processEnvelope this (with_events inEnvelope [event]) c
          = (Normal out, c')
          ∧ events out = [createTextUtterance options])).
Proof.
  split; [|split].
  - unfold addressedToMe. destruct (event_to event) as [to|].
    + rewrite orb_true_iff, !bool_decide_eq_true. split.
      * intros H. right. by exists to.
      * intros [?|(to' & [= <-] & H)]; [done | exact H].
    + split; [by left | done].
  - intros Hnot.
    assert (Hbody : ∀ env responseEvents c,
               ParrotAgentTs.processEnvelope_body this env responseEvents event c
               = (Normal responseEvents, c)).
    { intros env responseEvents c.
      unfold ParrotAgentTs.processEnvelope_body. by rewrite Hnot. }
    split; [apply Hbody|].
    intros pre post c. rewrite !processEnvelope_unfold.
    change (events (with_events inEnvelope (pre ++ event :: post)))
      with (pre ++ event :: post).
    change (events (with_events inEnvelope (pre ++ post))) with (pre ++ post).
    rewrite !for_of_app.
    change (ParrotAgentTs.processEnvelope_body this
              (with_events inEnvelope (pre ++ event :: post)))
      with (ParrotAgentTs.processEnvelope_body this inEnvelope).
    change (ParrotAgentTs.processEnvelope_body this
              (with_events inEnvelope (pre ++ post)))
      with (ParrotAgentTs.processEnvelope_body this inEnvelope).
    unfold mbind, M_bind.
    destruct (for_of pre _ [] c) as [[acc|e] c1]; [|done].
    simpl. unfold mbind, M_bind. by rewrite Hbody.
  - intros u -> Hto.
    assert (Haddr : addressedToMe this (Utterance u) = true).
    { unfold addressedToMe. simpl. by rewrite Hto. }
    destruct (spec_echo_transform_utterance this inEnvelope u) as [options Ho].
    split.
    + intros responseEvents c.
      destruct (processEnvelope_body_run this inEnvelope responseEvents
                  (Utterance u) c) as [c' Hc'].
      unfold spec_respond in Hc'. rewrite Haddr, Ho in Hc'.
      by exists options, c'.
    + intros c.
      destruct (processEnvelope_run this (with_events inEnvelope [Utterance u]) c)
        as [c' Hc'].
      eexists _, c', options. split; [exact Hc'|].
      unfold events. simpl. unfold spec_respond. rewrite Haddr.
      by rewrite spec_echo_transform_with_events, Ho.
Qed.

(** An utterance addressed to somebody else is dropped; one without [to]
    is answered. *)
Lemma C2_witness :
  ParrotAgentTs.processEnvelope polly
    (with_events (envelope_of [])
       ([] ++ Utterance (text_utterance (Some to_somebody_else) ["Hi"])
           :: [Utterance (text_utterance None ["Hello"])])) []
  = ParrotAgentTs.processEnvelope polly
      (with_events (envelope_of [])
         ([] ++ [Utterance (text_utterance None ["Hello"])])) []
  ∧ ∃ out c' options,
      ParrotAgentTs.processEnvelope polly
        (with_events (envelope_of []) [Utterance (text_utterance None ["Hello"])]) []
      = (Normal out, c')
      ∧ events out = [createTextUtterance options].
Proof.
  split.
  - refine (proj2 (proj1 (proj2 (C2_addressed_to_me polly (envelope_of [])
              (Utterance (text_utterance (Some to_somebody_else) ["Hi"])))) _)
              [] [Utterance (text_utterance None ["Hello"])] []).
    vm_compute. reflexivity.
  - refine (proj2 (proj2 (proj2 (C2_addressed_to_me polly (envelope_of [])
              (Utterance (text_utterance None ["Hello"]))))
              (text_utterance None ["Hello"]) _ _) []).
    + reflexivity.
    + reflexivity.
Defined.

(** C3: [processEnvelope] returns one envelope; its schema version and
    conversation id are those of the inbound envelope, its sender is the
    agent's speakerUri and serviceUrl, and its events are the responses to
    the inbound events, event after event in inbound order; no inbound
    events give no outbound events. *)
Theorem C3_outbound_envelope
    (this : ParrotAgent) (inEnvelope : Envelope Event) (c : Console) :
  (∃ out c',
     ParrotAgentTs.processEnvelope this inEnvelope c = (Normal out, c')
     ∧ version (schema out) = version (schema inEnvelope)
     ∧ id (conversation out) = id (conversation inEnvelope)
     ∧ sender out = {| sender_speakerUri := speakerUri this;
                       sender_serviceUrl := Some (serviceUrl this) |}
     ∧ events out = flat_map (spec_respond this inEnvelope) (events inEnvelope))
  ∧ (∃ out c',
       ParrotAgentTs.processEnvelope this (with_events inEnvelope []) c
       = (Normal out, c')
       ∧ version (schema out) = version (schema inEnvelope)
       ∧ id (conversation out) = id (conversation inEnvelope)
       ∧ sender out = {| sender_speakerUri := speakerUri this;
                         sender_serviceUrl := Some (serviceUrl this) |}
       ∧ events out = []).
Proof.
  split.
  - destruct (processEnvelope_run this inEnvelope c) as [c' Hc'].
    eexists _, c'. split; [exact Hc'|]. done.
  - exists (new_Envelope {| version := version (schema inEnvelope) |}
              {| id := id (conversation inEnvelope) |}
              {| sender_speakerUri := speakerUri this;
                 sender_serviceUrl := Some (serviceUrl this) |} []), c.
    done.
Qed.

Example order_preserved_A_B_C :
  ParrotAgentTs.processEnvelope polly
    (envelope_of [Utterance (text_utterance None ["A"]);
                  Utterance (text_utterance (Some to_polly) ["B"]);
                  Utterance (text_utterance (Some to_somebody_else) ["skipped"]);
                  Utterance (text_utterance None ["C"])]) []
  = (Normal (new_Envelope {| version := "1.0.0" |} {| id := "conversation-1" |}
               {| sender_speakerUri := "tag:openfloor-demo.com,2025:parrot-agent";
                  sender_serviceUrl :=
                    Some "https://kmhhywpw32.us-east-1.awsapprunner.com/" |}
               [text_reply polly (envelope_of []) "🦜 A" (Some 1%Q);
                text_reply polly (envelope_of []) "🦜 B" (Some 1%Q);
                text_reply polly (envelope_of []) "🦜 C" (Some 1%Q)]),
     []).
Proof. vm_compute. reflexivity. Qed.

(** C4: for a getManifests event addressed to the agent, one turn of the
    loop appends exactly one publishManifests event, whose [to] is the
    speakerUri of the inbound sender and whose [servicingManifests] holds
    the serialized manifest of the agent and nothing else; it takes the
    place of the request in the outbound sequence. *)
Theorem C4_get_manifests
    (this : ParrotAgent) (inEnvelope : Envelope Event) (to : option To) :
  addressedToMe this (OtherEvent "getManifests" to) = true →
  let reply :=
    EventObject "publishManifests"
      {| to_speakerUri := Some (sender_speakerUri (sender inEnvelope));
         to_serviceUrl := None |}
      {| servicingManifests := [Manifest_toObject (manifest this)] |} in
  (∀ responseEvents c,
     ParrotAgentTs.processEnvelope_body this inEnvelope responseEvents
       (OtherEvent "getManifests" to) c
     = (Normal (responseEvents ++ [reply]), c))
  ∧ (∀ pre post c,
       events inEnvelope = pre ++ OtherEvent "getManifests" to :: post →
       ∃ out c',
         ParrotAgentTs.processEnvelope this inEnvelope c = (Normal out, c')
         ∧ events out
           = flat_map (spec_respond this inEnvelope) pre
             ++ reply :: flat_map (spec_respond this inEnvelope) post).
Proof.
  intros Haddr reply. split.
  - intros responseEvents c.
    unfold ParrotAgentTs.processEnvelope_body. rewrite Haddr. done.
  - intros pre post c Hev.
    destruct (processEnvelope_at this inEnvelope pre _ post c Hev)
      as (out & c' & Hrun & Hout).
    exists out, c'. split; [exact Hrun|].
    rewrite Hout. unfold spec_respond at 2. rewrite Haddr. done.
Qed.

(** A manifest request sent to the agent's speakerUri. *)
Lemma C4_witness :
  ParrotAgentTs.processEnvelope_body polly
    (envelope_of [OtherEvent "getManifests" (Some to_polly)]) []
    (OtherEvent "getManifests" (Some to_polly)) []
  = (Normal [EventObject "publishManifests"
               {| to_speakerUri := Some "tag:example.com,2025:user";
                  to_serviceUrl := None |}
               {| servicingManifests := [Manifest_toObject (manifest polly)] |}],
     [])
  ∧ ∃ out c',
      ParrotAgentTs.processEnvelope polly
        (envelope_of [OtherEvent "getManifests" (Some to_polly)]) []
      = (Normal out, c')
      ∧ events out
        = [EventObject "publishManifests"
             {| to_speakerUri := Some "tag:example.com,2025:user";
                to_serviceUrl := None |}
             {| servicingManifests := [Manifest_toObject (manifest polly)] |}].
Proof.
  assert (Haddr : addressedToMe polly (OtherEvent "getManifests" (Some to_polly))
                  = true) by (vm_compute; reflexivity).
  pose proof (C4_get_manifests polly
                (envelope_of [OtherEvent "getManifests" (Some to_polly)])
                (Some to_polly) Haddr)
    as [Hbody Hplace].
  split.
  - exact (Hbody [] []).
  - exact (Hplace [] [] [] eq_refl).
Defined.

(** C5: [processEnvelope] never throws and always returns an envelope; the
    handler never throws either, and whenever its [try] block throws, the
    [catch] block passes the caught value to [console.error] and answers
    with the confused chirp, which takes the place of the utterance in the
    outbound sequence. *)
Theorem C5_never_raises (this : ParrotAgent) (inEnvelope : Envelope Event) :
  (∀ c, ∃ out c',
     ParrotAgentTs.processEnvelope this inEnvelope c = (Normal out, c'))
  ∧ (∀ event c, ∃ response c',
       ParrotAgentTs._handleParrotUtterance this event inEnvelope c
       = (Normal response, c'))
  ∧ (∀ event c e c1,
       ParrotAgentTs._handleParrotUtterance_try this event inEnvelope c
       = (Abrupt e, c1) →
       let response :=
         createTextUtterance
           {| opt_speakerUri := speakerUri this;
              opt_text :=
                "🦜 *confused chirp* Something went wrong while trying to repeat that!";
              opt_to := Some (reply_to inEnvelope);
              opt_confidence := None |} in
       ParrotAgentTs._handleParrotUtterance this event inEnvelope c
       = (Normal response,
          c1 ++ [ErrorLogged "Error in parrot utterance handling:" e])
       ∧ (addressedToMe this (Utterance event) = true →
          ∀ pre post c0,
            events inEnvelope = pre ++ Utterance event :: post →
            ∃ out c',
              ParrotAgentTs.processEnvelope this inEnvelope c0 = (Normal out, c')
              ∧ events out
                = flat_map (spec_respond this inEnvelope) pre
                  ++ response :: flat_map (spec_respond this inEnvelope) post)).
Proof.
  split; [|split].
  - intros c. destruct (processEnvelope_run this inEnvelope c) as [c' Hc'].
    by eexists _, c'.
  - intros event c.
    destruct (handleParrotUtterance_run this inEnvelope event c) as [c' Hc'].
    by eexists _, c'.
  - intros event c e c1 Htry response.
    assert (Hhandle :
              ParrotAgentTs._handleParrotUtterance this event inEnvelope c
              = (Normal response,
                 c1 ++ [ErrorLogged "Error in parrot utterance handling:" e])).
    { unfold ParrotAgentTs._handleParrotUtterance.
      erewrite try_catch_abrupt; [|exact Htry]. reflexivity. }
    split; [exact Hhandle|].
    intros Haddr pre post c0 Hev.
    destruct (processEnvelope_at this inEnvelope pre (Utterance event) post c0 Hev)
      as (out & c' & Hrun & Hout).
    exists out, c'. split; [exact Hrun|].
    rewrite Hout. do 2 f_equal.
    unfold spec_respond. rewrite Haddr.
    destruct (handleParrotUtterance_run this inEnvelope event c) as [c2 H2].
    rewrite Hhandle in H2. by injection H2 as <- _.
Qed.

(** A [null] in the tokens array: reading its [value] throws, and the
    answer is the confused chirp. *)
Lemma C5_witness :
  ParrotAgentTs._handleParrotUtterance_try polly broken_utterance
    (envelope_of [Utterance broken_utterance]) []
  = (Abrupt (ThrownError
               (TypeError "Cannot read properties of null (reading 'value')")), [])
  ∧ ParrotAgentTs._handleParrotUtterance polly broken_utterance
      (envelope_of [Utterance broken_utterance]) []
    = (Normal (text_reply polly (envelope_of []) confused_chirp_text None),
       [ErrorLogged "Error in parrot utterance handling:"
          (ThrownError
             (TypeError "Cannot read properties of null (reading 'value')"))])
  ∧ ∃ out c',
      ParrotAgentTs.processEnvelope polly
        (envelope_of [Utterance broken_utterance]) [] = (Normal out, c')
      ∧ events out = [text_reply polly (envelope_of []) confused_chirp_text None].
Proof.
  assert (Htry :
            ParrotAgentTs._handleParrotUtterance_try polly broken_utterance
              (envelope_of [Utterance broken_utterance]) []
            = (Abrupt (ThrownError
                         (TypeError
                            "Cannot read properties of null (reading 'value')")),
               [])) by (vm_compute; reflexivity).
  pose proof (proj2 (proj2 (C5_never_raises polly
                              (envelope_of [Utterance broken_utterance])))
                broken_utterance []
                (ThrownError
                   (TypeError "Cannot read properties of null (reading 'value')"))
                [] Htry)
    as [Hhandle Hplace].
  split; [exact Htry|]. split.
  - exact Hhandle.
  - exact (Hplace eq_refl [] [] [] eq_refl).
Defined.



(** C7: every event of the outbound envelope has a [to] field, and it
    names the speakerUri of the inbound envelope's sender and nothing
    else: no response is left unaddressed or sent to another party. *)
Theorem C7_reply_to_sender
    (this : ParrotAgent) (inEnvelope : Envelope Event) (c : Console) :
  ∃ out c',
    ParrotAgentTs.processEnvelope this inEnvelope c = (Normal out, c')
    ∧ Forall (λ response,
                ∃ to, response_to response = Some to
                      ∧ to_speakerUri to
                        = Some (sender_speakerUri (sender inEnvelope))
                      ∧ to_serviceUrl to = None)
             (events out).
Proof.
  destruct (processEnvelope_run this inEnvelope c) as [c' Hc'].
  eexists _, c'. split; [exact Hc'|].
  unfold events at 1. simpl.
  apply Forall_flat_map_intro. intros event.
  eapply Forall_impl; [apply spec_respond_reply_to|].
  intros response Hto. by exists (reply_to inEnvelope).
Qed.

(** C9: whatever serviceUrl the inbound sender carries, the [to] field of
    every response (echo, chirp, confused chirp and publishManifests alike)
    holds the sender's speakerUri and no serviceUrl. *)
Theorem C9_reply_without_serviceUrl
    (this : ParrotAgent) (schema0 : Schema) (conversation0 : Conversation)
    (uri url : string) (l : list Event) (c : Console) :
  let inEnvelope :=
    new_Envelope schema0 conversation0
      {| sender_speakerUri := uri; sender_serviceUrl := Some url |} l in
  ∃ out c',
    ParrotAgentTs.processEnvelope this inEnvelope c = (Normal out, c')
    ∧ Forall (λ response,
                response_to response
                = Some {| to_speakerUri := Some uri; to_serviceUrl := None |})
             (events out).
Proof.
  intros inEnvelope.
  destruct (processEnvelope_run this inEnvelope c) as [c' Hc'].
  eexists _, c'. split; [exact Hc'|].
  unfold events at 1. simpl.
  apply Forall_flat_map_intro. intros event.
  apply (spec_respond_reply_to this inEnvelope event).
Qed.

(** C10: on an inbound envelope all of whose events are utterances, the
    deployed [processEnvelope] and the earlier variant return the same
    envelope (and leave the same console), so the same event sequence; a
    getManifests request is answered by the deployed agent only. *)
Theorem C10_variants_agree_on_utterances (this : ParrotAgent) :
  (∀ inEnvelope c,
     Forall (λ event, is_Some (isUtteranceEvent event)) (events inEnvelope) →
     ∃ out c',
       ParrotAgentTs.processEnvelope this inEnvelope c = (Normal out, c')
       ∧ ParrotAgentAlt.processEnvelope this inEnvelope c = (Normal out, c'))
  ∧ (∀ inEnvelope c,
       events inEnvelope = [OtherEvent "getManifests" None] →
       ∃ out out' c',
         ParrotAgentTs.processEnvelope this inEnvelope c = (Normal out, c')
         ∧ ParrotAgentAlt.processEnvelope this inEnvelope c = (Normal out', c')
         ∧ events out = [publish_manifests this inEnvelope]
         ∧ events out' = []).
Proof.
  split.
  - intros inEnvelope c Hall.
    destruct (processEnvelope_run this inEnvelope c) as [c' Hc'].
    eexists _, c'. split; [exact Hc'|].
    unfold ParrotAgentAlt.processEnvelope.
    rewrite alt_for_of_utterances by exact Hall.
    rewrite processEnvelope_unfold in Hc'.
    change (events (new_Envelope _ _ _ [])) with (@nil ResponseEvent).
    destruct (for_of (events inEnvelope) _ [] c) as [[responseEvents|e] c1];
      [|done].
    by injection Hc' as -> ->.
  - intros inEnvelope c Hev.
    unfold ParrotAgentAlt.processEnvelope. rewrite processEnvelope_unfold.
    rewrite Hev. by eexists _, _, c.
Qed.

(** Two utterances agree; a manifest request tells the variants apart. *)
Lemma C10_witness :
  (∃ out c',
     ParrotAgentTs.processEnvelope polly
       (envelope_of [Utterance (text_utterance None ["A"]);
                     Utterance broken_utterance]) []
     = (Normal out, c')
     ∧ ParrotAgentAlt.processEnvelope polly
         (envelope_of [Utterance (text_utterance None ["A"]);
                       Utterance broken_utterance]) []
       = (Normal out, c'))
  ∧ ∃ out out' c',
      ParrotAgentTs.processEnvelope polly
        (envelope_of [OtherEvent "getManifests" None]) [] = (Normal out, c')
      ∧ ParrotAgentAlt.processEnvelope polly
          (envelope_of [OtherEvent "getManifests" None]) [] = (Normal out', c')
      ∧ events out
        = [publish_manifests polly (envelope_of [OtherEvent "getManifests" None])]
      ∧ events out' = [].
Proof.
  split.
  - apply (proj1 (C10_variants_agree_on_utterances polly)).
    repeat constructor; by eexists.
  - apply (proj2 (C10_variants_agree_on_utterances polly)). reflexivity.
Defined.

(** ** Beyond the claims: the console, counts and composition *)

Lemma first_error_run (slots : list TokenSlot) (c : Console) :
  match first_error slots with
  | Some e => mapM token_value slots c = (Abrupt (ThrownError e), c)
  | None => ∃ ts, slots = SlotToken <$> ts
  end.
Proof.
  induction slots as [|s slots IH]; [by exists []|].
  destruct s as [t| |]; [|done|done].
  cbn [first_error].
  destruct (first_error slots) as [e|].
  - rewrite mapM_cons_run.
    erewrite bind_normal; [|reflexivity].
    by erewrite bind_abrupt.
  - destruct IH as [ts ->]. by exists (t :: ts).
Qed.

(** The handler leaves on the console what was there, followed by one
    [console.error] call if its [try] block threw. *)
Lemma handleParrotUtterance_console this inEnvelope event c :
  (ParrotAgentTs._handleParrotUtterance this event inEnvelope c).2
  = c ++ match handler_error event with
         | Some e => [ErrorLogged "Error in parrot utterance handling:" (ThrownError e)]
         | None => []
         end.
Proof.
  unfold ParrotAgentTs._handleParrotUtterance,
    ParrotAgentTs._handleParrotUtterance_try, handler_error.
  destruct (get_text_feature (dialogEvent event)) as [textFeature|];
    [|by rewrite app_nil_r].
  destruct (tokens textFeature) as [[|s slots]|]; [by rewrite app_nil_r| |
                                                   by rewrite app_nil_r].
  pose proof (first_error_run (s :: slots) c) as Hrun.
  destruct (first_error (s :: slots)) as [e|].
  - erewrite try_catch_abrupt; [|by erewrite bind_abrupt]. done.
  - destruct Hrun as [ts Hts]. rewrite Hts.
    erewrite try_catch_normal;
      [|erewrite bind_normal; [reflexivity|apply mapM_token_value_tokens]].
    by rewrite app_nil_r.
Qed.

Lemma handleParrotUtterance_exact this inEnvelope event c :
  ParrotAgentTs._handleParrotUtterance this event inEnvelope c
  = (Normal (spec_echo_transform this inEnvelope event),
     c ++ match handler_error event with
          | Some e => [ErrorLogged "Error in parrot utterance handling:" (ThrownError e)]
          | None => []
          end).
Proof.
  pose proof (handleParrotUtterance_console this inEnvelope event c) as Hc.
  destruct (handleParrotUtterance_run this inEnvelope event c) as [c' Hrun].
  rewrite Hrun in Hc |- *. simpl in Hc. by rewrite Hc.
Qed.

Lemma processEnvelope_body_exact this inEnvelope responseEvents event c :
  ParrotAgentTs.processEnvelope_body this inEnvelope responseEvents event c
  = (Normal (responseEvents ++ spec_respond this inEnvelope event),
     c ++ logged this event).
Proof.
  unfold ParrotAgentTs.processEnvelope_body, spec_respond, logged.
  destruct (addressedToMe this event); [|by rewrite !app_nil_r].
  destruct event as [u|eventType to]; simpl.
  - erewrite bind_normal; [|apply handleParrotUtterance_exact]. done.
  - rewrite app_nil_r. case_bool_decide; [done | by rewrite app_nil_r].
Qed.

Lemma for_of_body_exact this inEnvelope (l : list Event) :
  ∀ responseEvents c,
    for_of l (ParrotAgentTs.processEnvelope_body this inEnvelope) responseEvents c
    = (Normal (responseEvents ++ flat_map (spec_respond this inEnvelope) l),
       c ++ flat_map (logged this) l).
Proof.
  induction l as [|event l IH]; intros responseEvents c.
  - simpl. by rewrite !app_nil_r.
  - simpl. erewrite bind_normal; [|apply processEnvelope_body_exact].
    by rewrite IH, <- !app_assoc.
Qed.

Lemma processEnvelope_exact this inEnvelope c :
  ParrotAgentTs.processEnvelope this inEnvelope c
  = (Normal (new_Envelope
               {| version := version (schema inEnvelope) |}
               {| id := id (conversation inEnvelope) |}
               {| sender_speakerUri := speakerUri this;
                  sender_serviceUrl := Some (serviceUrl this) |}
               (flat_map (spec_respond this inEnvelope) (events inEnvelope))),
     c ++ flat_map (logged this) (events inEnvelope)).
Proof.
  rewrite processEnvelope_unfold, for_of_body_exact. done.
Qed.

Lemma spec_respond_length this inEnvelope event :
  length (spec_respond this inEnvelope event)
  = if answered this event then 1%nat else 0%nat.
Proof.
  unfold spec_respond, answered.
  destruct (addressedToMe this event); [|done].
  destruct event as [u|eventType to]; [done|].
  simpl. by case_bool_decide.
Qed.

(** X1: the outbound envelope holds exactly one event for every inbound
    event that is addressed to the agent and is an utterance or a
    getManifests request, and none for any other; so it never holds more
    events than the inbound envelope. *)
Theorem X1_one_response_per_answered_event
    (this : ParrotAgent) (inEnvelope : Envelope Event) (c : Console) :
  ∃ out c',
    ParrotAgentTs.processEnvelope this inEnvelope c = (Normal out, c')
    ∧ length (events out)
      = length (List.filter (answered this) (events inEnvelope))
    ∧ (length (events out) ≤ length (events inEnvelope))%nat.
Proof.
  eexists _, _. split; [apply processEnvelope_exact|].
  unfold events. cbn [_events].
  generalize (_events inEnvelope) as l. intros l.
  assert (Hlen : length (flat_map (spec_respond this inEnvelope) l)
                 = length (List.filter (answered this) l)).
  { induction l as [|event l IH]; [done|].
    simpl. rewrite length_app, spec_respond_length, IH.
    by destruct (answered this event). }
  split; [exact Hlen|].
  rewrite Hlen. apply List.filter_length_le.
Qed.

(** X2: answering an envelope whose events are [l1] followed by [l2] is
    answering [l1] and then, on the console that leaves, [l2]: the
    outbound events are those of the first answer followed by those of the
    second, and the console ends as after the second. *)
Theorem X2_processEnvelope_concatenation
    (this : ParrotAgent) (inEnvelope : Envelope Event) (l1 l2 : list Event)
    (c : Console) :
  ∃ out1 c1 out2 c2 out,
    ParrotAgentTs.processEnvelope this (with_events inEnvelope l1) c
    = (Normal out1, c1)
    ∧ ParrotAgentTs.processEnvelope this (with_events inEnvelope l2) c1
      = (Normal out2, c2)
    ∧ ParrotAgentTs.processEnvelope this (with_events inEnvelope (l1 ++ l2)) c
      = (Normal out, c2)
    ∧ events out = events out1 ++ events out2.
Proof.
  eexists _, _, _, _, _.
  split; [apply processEnvelope_exact|].
  split; [apply processEnvelope_exact|].
  split.
  - rewrite processEnvelope_exact.
    change (events (with_events inEnvelope (l1 ++ l2))) with (l1 ++ l2).
    change (events (with_events inEnvelope l1)) with l1.
    change (events (with_events inEnvelope l2)) with l2.
    rewrite (flat_map_app (logged this)), app_assoc. reflexivity.
  - unfold events. cbn [_events with_events set__events].
    apply flat_map_app.
Qed.

(** X3: [processEnvelope] only adds [console.error] calls: the calls made
    before stay, and after them comes one call for every addressed
    utterance whose tokens array holds a [null] or [undefined], in inbound
    order, each with the label 'Error in parrot utterance handling:' and
    the [TypeError] that was thrown; with no such utterance the console is
    left as it was.  (What Node prints for a call is not stated.) *)
Theorem X3_console_only_grows
    (this : ParrotAgent) (inEnvelope : Envelope Event) (c : Console) :
  (∃ out,
     ParrotAgentTs.processEnvelope this inEnvelope c
     = (Normal out, c ++ flat_map (logged this) (events inEnvelope)))
  ∧ Forall (λ call,
              ∃ e, call = ErrorLogged "Error in parrot utterance handling:"
                            (ThrownError e)
                   ∧ name e = "TypeError")
           (flat_map (logged this) (events inEnvelope))
  ∧ length (flat_map (logged this) (events inEnvelope))
    = length (List.filter
                (λ event,
                   addressedToMe this event
                   && match event with
                      | Utterance u => bool_decide (is_Some (handler_error u))
                      | OtherEvent _ _ => false
                      end)
                (events inEnvelope))
  ∧ (Forall (λ event, ∀ u, event = Utterance u → handler_error u = None)
            (events inEnvelope) →
     ∃ out, ParrotAgentTs.processEnvelope this inEnvelope c = (Normal out, c)).
Proof.
  split; [|split; [|split]].
  - eexists. apply processEnvelope_exact.
  - apply Forall_flat_map_intro. intros event. unfold logged.
    destruct (addressedToMe this event); [|constructor].
    destruct event as [u|]; [|constructor].
    destruct (handler_error u) as [e|] eqn:He; [|constructor].
    repeat constructor. exists e. split; [done|].
    unfold handler_error in He.
    destruct (get_text_feature (dialogEvent u)) as [textFeature|]; [|done].
    destruct (tokens textFeature) as [slots|]; [|done].
    induction slots as [|[t| |] slots IH]; simpl in He;
      [done | by apply IH | by injection He as <- | by injection He as <-].
  - induction (events inEnvelope) as [|event l IH]; [done|].
    simpl. rewrite length_app, IH. unfold logged.
    destruct (addressedToMe this event); [|done].
    destruct event as [u|]; [|done].
    simpl. by destruct (handler_error u) as [e|].
  - intros Hall. eexists. rewrite processEnvelope_exact.
    f_equal. rewrite <- (app_nil_r c) at 2. f_equal.
    induction Hall as [|event l Hev _ IH]; [done|].
    simpl. rewrite IH, app_nil_r. unfold logged.
    destruct (addressedToMe this event); [|done].
    destruct event as [u|]; [|done].
    by rewrite (Hev u eq_refl).
Qed.

(** A well-formed utterance, a manifest request and an utterance without
    features: no call is added to the one made earlier. *)
Lemma X3_witness :
  ∃ out,
    ParrotAgentTs.processEnvelope polly
      (envelope_of [Utterance (text_utterance None ["A"]);
                    OtherEvent "getManifests" None;
                    Utterance featureless_utterance])
      [StringsLogged "earlier call" []]
    = (Normal out, [StringsLogged "earlier call" []]).
Proof.
  refine (proj2 (proj2 (proj2 (X3_console_only_grows polly
                          (envelope_of [Utterance (text_utterance None ["A"]);
                                        OtherEvent "getManifests" None;
                                        Utterance featureless_utterance])
                          [StringsLogged "earlier call" []]))) _).
  repeat constructor; intros u [= <-]; vm_compute; reflexivity.
Defined.

(** ** Beyond the claims: what the echo transform answers *)

Lemma mapM_slot_token_tokens (ts : list Token) :
  mapM slot_token (SlotToken <$> ts) = Some ts.
Proof.
  induction ts as [|t ts IH]; [done|].
  rewrite fmap_cons. cbn. cbn in IH. by rewrite IH.
Qed.

Lemma first_error_tokens (ts : list Token) : first_error (SlotToken <$> ts) = None.
Proof. induction ts as [|t ts IH]; [done | exact IH]. Qed.

(** The three answers of the echo transform, by the tokens of the text
    feature. *)
Lemma spec_echo_transform_cases this inEnvelope event :
  (∃ textFeature t ts,
     get_text_feature (dialogEvent event) = Some textFeature
     ∧ tokens textFeature = Some (SlotToken <$> t :: ts)
     ∧ handler_error event = None
     ∧ spec_echo_transform this inEnvelope event
       = text_reply this inEnvelope ("🦜 " +:+ concat_values (t :: ts)) (Some 1%Q))
  ∨ ((get_text_feature (dialogEvent event) = None
      ∨ ∃ textFeature,
          get_text_feature (dialogEvent event) = Some textFeature
          ∧ (tokens textFeature = None ∨ tokens textFeature = Some []))
     ∧ handler_error event = None
     ∧ spec_echo_transform this inEnvelope event
       = text_reply this inEnvelope chirp_text None)
  ∨ (is_Some (handler_error event)
     ∧ spec_echo_transform this inEnvelope event
       = text_reply this inEnvelope confused_chirp_text None).
Proof.
  unfold spec_echo_transform, handler_error.
  destruct (get_text_feature (dialogEvent event)) as [textFeature|];
    [|right; left; eauto].
  destruct (tokens textFeature) as [[|s slots]|] eqn:Htokens;
    [right; left; split; [right; eauto|done] |
    |right; left; split; [right; eauto|done]].
  pose proof (first_error_run (s :: slots) []) as Hfirst.
  pose proof (mapM_token_value_run (s :: slots) []) as Hrun.
  destruct (first_error (s :: slots)) as [e|].
  - right; right. split; [eauto|].
    destruct (mapM slot_token (s :: slots)) as [ts|]; [|done].
    rewrite Hfirst in Hrun. done.
  - left. destruct Hfirst as [[|t ts] Hts]; [done|].
    rewrite Hts in Htokens |- *. rewrite mapM_slot_token_tokens.
    by exists textFeature, t, ts.
Qed.

(** X4: the handler always answers with a text utterance in the agent's
    name, in exactly one of three ways: the echo, with confidence 1.0,
    when the tokens array is not empty and holds token objects only; the
    chirp, without confidence, when there is no text feature or no token;
    the confused chirp, without confidence, when a token is [null] or
    [undefined].  So a confidence is set on echoes and on nothing else. *)
Theorem X4_three_answers
    (this : ParrotAgent) (inEnvelope : Envelope Event) (event : UtteranceEvent)
    (c : Console) :
  ∃ options c',
    ParrotAgentTs._handleParrotUtterance this event inEnvelope c
    = (Normal (createTextUtterance options), c')
    ∧ opt_speakerUri options = speakerUri this
    ∧ ((∃ textFeature t ts,
          get_text_feature (dialogEvent event) = Some textFeature
          ∧ tokens textFeature = Some (SlotToken <$> t :: ts)
          ∧ opt_text options = "🦜 " +:+ concat_values (t :: ts)
          ∧ opt_confidence options = Some 1%Q)
       ∨ ((get_text_feature (dialogEvent event) = None
           ∨ ∃ textFeature,
               get_text_feature (dialogEvent event) = Some textFeature
               ∧ (tokens textFeature = None ∨ tokens textFeature = Some []))
          ∧ opt_text options = "🦜 *chirp* I can only repeat text messages!"
          ∧ opt_confidence options = None)
       ∨ (is_Some (handler_error event)
          ∧ opt_text options
            = "🦜 *confused chirp* Something went wrong while trying to repeat that!"
          ∧ opt_confidence options = None)).
Proof.
  rewrite handleParrotUtterance_exact.
  destruct (spec_echo_transform_cases this inEnvelope event)
    as [(textFeature & t & ts & Hf & Ht & _ & ->)
       | [(Hno & _ & ->) | (Herr & ->)]];
    eexists _, _; (split; [reflexivity|]); (split; [reflexivity|]).
  - left. by exists textFeature, t, ts.
  - right; left. done.
  - right; right. done.
Qed.

(** The echo of an utterance whose tokens are token objects. *)
Lemma handleParrotUtterance_echo this inEnvelope event textFeature t ts c :
  get_text_feature (dialogEvent event) = Some textFeature →
  tokens textFeature = Some (SlotToken <$> t :: ts) →
  ParrotAgentTs._handleParrotUtterance this event inEnvelope c
  = (Normal (text_reply this inEnvelope ("🦜 " +:+ concat_values (t :: ts))
               (Some 1%Q)), c).
Proof.
  intros Hf Ht. rewrite handleParrotUtterance_exact.
  unfold spec_echo_transform, handler_error. rewrite Hf, Ht.
  rewrite first_error_tokens, mapM_slot_token_tokens, app_nil_r. done.
Qed.

(** X5: the echo is faithful to the text: two utterances with token
    objects get the same answer exactly when their token values, put one
    after the other, make the same text, however the text is cut into
    tokens. *)
Theorem X5_echo_is_faithful
    (this : ParrotAgent) (inEnvelope : Envelope Event)
    (event1 event2 : UtteranceEvent) (textFeature1 textFeature2 : Feature)
    (t1 t2 : Token) (ts1 ts2 : list Token) (c : Console) :
  get_text_feature (dialogEvent event1) = Some textFeature1 →
  tokens textFeature1 = Some (SlotToken <$> t1 :: ts1) →
  get_text_feature (dialogEvent event2) = Some textFeature2 →
  tokens textFeature2 = Some (SlotToken <$> t2 :: ts2) →
  ParrotAgentTs._handleParrotUtterance this event1 inEnvelope c
  = ParrotAgentTs._handleParrotUtterance this event2 inEnvelope c
  ↔ concat_values (t1 :: ts1) = concat_values (t2 :: ts2).
Proof.
  intros Hf1 Ht1 Hf2 Ht2.
  rewrite (handleParrotUtterance_echo _ _ _ _ _ _ _ Hf1 Ht1).
  rewrite (handleParrotUtterance_echo _ _ _ _ _ _ _ Hf2 Ht2).
  split.
  - intros Heq.
    apply (f_equal (λ r, match r.1 with
                         | Normal (createTextUtterance options) => opt_text options
                         | _ => ""
                         end)) in Heq.
    by apply (inj (String.app "🦜 ")) in Heq.
  - by intros ->.
Qed.

(** "Hello, " and "world!" in two tokens, or "Hello, world!" in one. *)
Lemma X5_witness :
  ParrotAgentTs._handleParrotUtterance polly
    (text_utterance None ["Hello, "; "world!"]) (envelope_of []) []
  = ParrotAgentTs._handleParrotUtterance polly
      (text_utterance None ["Hello, world!"]) (envelope_of []) [].
Proof.
  assert (Hf : ∀ texts,
             get_text_feature (dialogEvent (text_utterance None texts))
             = Some (text_feature (SlotToken ∘ mkToken <$> texts)))
    by (intros texts; apply lookup_singleton_eq).
  refine (proj2 (X5_echo_is_faithful polly (envelope_of [])
                   (text_utterance None ["Hello, "; "world!"])
                   (text_utterance None ["Hello, world!"])
                   _ _ (mkToken "Hello, ") (mkToken "Hello, world!")
                   [mkToken "world!"] [] []
                   (Hf ["Hello, "; "world!"]) eq_refl
                   (Hf ["Hello, world!"]) eq_refl) _).
  reflexivity.
Defined.

Lemma concat_values_empty (ts : list Token) :
  Forall (λ t, value t = "") ts → concat_values ts = "".
Proof.
  induction 1 as [|t ts Ht _ IH]; [done|].
  unfold concat_values in *. simpl. by rewrite Ht, IH.
Qed.

(** X6: whether to echo is decided by the number of tokens, not by their
    text: tokens that all hold the empty string are echoed, as the bare
    prefix "🦜 " with confidence 1.0, and do not get the chirp. *)
Theorem X6_empty_text_is_echoed
    (this : ParrotAgent) (inEnvelope : Envelope Event) (event : UtteranceEvent)
    (textFeature : Feature) (t : Token) (ts : list Token) (c : Console) :
  get_text_feature (dialogEvent event) = Some textFeature →
  tokens textFeature = Some (SlotToken <$> t :: ts) →
  Forall (λ t, value t = "") (t :: ts) →
  ParrotAgentTs._handleParrotUtterance this event inEnvelope c
  = (Normal (createTextUtterance
               {| opt_speakerUri := speakerUri this;
                  opt_text := "🦜 ";
                  opt_to := Some (reply_to inEnvelope);
                  opt_confidence := Some 1%Q |}), c).
Proof.
  intros Hf Ht Hempty.
  rewrite (handleParrotUtterance_echo _ _ _ _ _ _ _ Hf Ht).
  by rewrite (concat_values_empty _ Hempty).
Qed.

(** One token holding the empty string. *)
Lemma X6_witness :
  ParrotAgentTs._handleParrotUtterance polly (text_utterance None [""])
    (envelope_of []) []
  = (Normal (text_reply polly (envelope_of []) "🦜 " (Some 1%Q)), []).
Proof.
  refine (X6_empty_text_is_echoed polly (envelope_of [])
            (text_utterance None [""])
            (text_feature [SlotToken (mkToken "")]) (mkToken "") [] [] _ _ _).
  - apply lookup_singleton_eq.
  - reflexivity.
  - repeat constructor.
Defined.

(** ** Beyond the claims: what the answer depends on *)

Lemma spec_respond_reply_to_only this inEnvelope1 inEnvelope2 event :
  reply_to inEnvelope1 = reply_to inEnvelope2 →
  spec_respond this inEnvelope1 event = spec_respond this inEnvelope2 event.
Proof.
  intros H.
  unfold spec_respond, spec_echo_transform, publish_manifests, text_reply.
  by rewrite H.
Qed.

(** X7: of the inbound envelope, the outbound events use the event list
    and the sender's speakerUri only: two envelopes that agree on these,
    whatever their schema version, conversation id and sender serviceUrl,
    get the same events from the same sender and leave the same console. *)
Theorem X7_answers_use_events_and_sender_only
    (this : ParrotAgent) (inEnvelope1 inEnvelope2 : Envelope Event) (c : Console) :
  events inEnvelope1 = events inEnvelope2 →
  sender_speakerUri (sender inEnvelope1) = sender_speakerUri (sender inEnvelope2) →
  ∃ out1 out2 c',
    ParrotAgentTs.processEnvelope this inEnvelope1 c = (Normal out1, c')
    ∧ ParrotAgentTs.processEnvelope this inEnvelope2 c = (Normal out2, c')
    ∧ events out1 = events out2
    ∧ sender out1 = sender out2.
Proof.
  intros Hev Hsender.
  assert (Hreply : reply_to inEnvelope1 = reply_to inEnvelope2)
    by (unfold reply_to; by rewrite Hsender).
  eexists _, _, _.
  split; [apply processEnvelope_exact|].
  split; [rewrite processEnvelope_exact, Hev; reflexivity|].
  split; [|done].
  unfold events at 1 3. cbn [_events]. rewrite <- Hev.
  generalize (events inEnvelope1) as l. clear Hev.
  induction l as [|event l IH]; [done|].
  simpl. by rewrite IH, (spec_respond_reply_to_only _ _ _ _ Hreply).
Qed.

(** The same utterance from the same speaker, in two conversations. *)
Lemma X7_witness :
  ∃ out1 out2 c',
    ParrotAgentTs.processEnvelope polly
      (envelope_of [Utterance (text_utterance None ["A"])]) [] = (Normal out1, c')
    ∧ ParrotAgentTs.processEnvelope polly
        (new_Envelope {| version := "0.9.4" |} {| id := "conversation-2" |}
           {| sender_speakerUri := "tag:example.com,2025:user";
              sender_serviceUrl := None |}
           [Utterance (text_utterance None ["A"])]) [] = (Normal out2, c')
    ∧ events out1 = events out2
    ∧ sender out1 = sender out2.
Proof.
  apply (X7_answers_use_events_and_sender_only polly
           (envelope_of [Utterance (text_utterance None ["A"])])
           (new_Envelope {| version := "0.9.4" |} {| id := "conversation-2" |}
              {| sender_speakerUri := "tag:example.com,2025:user";
                 sender_serviceUrl := None |}
              [Utterance (text_utterance None ["A"])]) []);
    reflexivity.
Defined.

(** X8: an event that is no utterance and whose [eventType] is not exactly
    "getManifests" is ignored even when addressed to the agent: the turn of
    the loop changes neither the responses nor the console and throws
    nothing, and the envelope without the event is answered in the same
    way. *)
Theorem X8_other_event_kinds_ignored
    (this : ParrotAgent) (inEnvelope : Envelope Event)
    (eventType : string) (to : option To) :
  eventType ≠ "getManifests" →
  (∀ responseEvents c,
     ParrotAgentTs.processEnvelope_body this inEnvelope responseEvents
       (OtherEvent eventType to) c
     = (Normal responseEvents, c))
  ∧ (∀ pre post c,
       ParrotAgentTs.processEnvelope this
         (with_events inEnvelope (pre ++ OtherEvent eventType to :: post)) c
       = ParrotAgentTs.processEnvelope this
           (with_events inEnvelope (pre ++ post)) c).
Proof.
  intros Hkind.
  assert (Hrespond : ∀ env, spec_respond this env (OtherEvent eventType to) = []).
  { intros env. unfold spec_respond.
    destruct (addressedToMe this (OtherEvent eventType to)); [|done].
    by rewrite bool_decide_eq_false_2. }
  assert (Hlogged : logged this (OtherEvent eventType to) = []).
  { unfold logged. by destruct (addressedToMe this (OtherEvent eventType to)). }
  split.
  - intros responseEvents c.
    by rewrite processEnvelope_body_exact, Hrespond, Hlogged, !app_nil_r.
  - intros pre post c. rewrite !processEnvelope_exact.
    change (events (with_events inEnvelope (pre ++ OtherEvent eventType to :: post)))
      with (pre ++ OtherEvent eventType to :: post).
    change (events (with_events inEnvelope (pre ++ post))) with (pre ++ post).
    rewrite !flat_map_app. simpl.
    rewrite Hlogged.
    rewrite (Hrespond (with_events inEnvelope (pre ++ OtherEvent eventType to :: post))).
    reflexivity.
Qed.

(** A request spelled with another capital, and a bye event. *)
Lemma X8_witness :
  ParrotAgentTs.processEnvelope polly
    (with_events (envelope_of [])
       ([OtherEvent "GetManifests" (Some to_polly)]
          ++ OtherEvent "bye" None :: [Utterance (text_utterance None ["A"])])) []
  = ParrotAgentTs.processEnvelope polly
      (with_events (envelope_of [])
         ([OtherEvent "GetManifests" (Some to_polly)]
            ++ [Utterance (text_utterance None ["A"])])) []
  ∧ ParrotAgentTs.processEnvelope_body polly (envelope_of []) []
      (OtherEvent "GetManifests" (Some to_polly)) []
    = (Normal [], []).
Proof.
  split.
  - refine (proj2 (X8_other_event_kinds_ignored polly (envelope_of [])
                     "bye" None _) _ _ _).
    discriminate.
  - refine (proj1 (X8_other_event_kinds_ignored polly (envelope_of [])
                     "GetManifests" (Some to_polly) _) _ _).
    discriminate.
Defined.

(** X9: what is configured is what is published.  The agent
    [createParrotAgent] builds answers a getManifests request sent to
    nobody, to its configured speakerUri or to its configured serviceUrl,
    in its configured name, with one manifest: the configured speakerUri
    and serviceUrl, the organization, name and description that were given
    (an empty string is kept as given), the defaults for those that were
    not, and the one fixed capability. *)
Theorem X9_configured_manifest_is_published
    (options : ParrotAgentOptions) (inEnvelope : Envelope Event)
    (to : option To) (c : Console) :
  (to = None
   ∨ ∃ t, to = Some t
          ∧ (to_speakerUri t = Some (pa_speakerUri options)
             ∨ to_serviceUrl t = Some (pa_serviceUrl options))) →
  events inEnvelope = [OtherEvent "getManifests" to] →
  ∃ out,
    ParrotAgentTs.processEnvelope (createParrotAgent options) inEnvelope c
    = (Normal out, c)
    ∧ sender out = {| sender_speakerUri := pa_speakerUri options;
                      sender_serviceUrl := Some (pa_serviceUrl options) |}
    ∧ events out
      = [EventObject "publishManifests"
           {| to_speakerUri := Some (sender_speakerUri (sender inEnvelope));
              to_serviceUrl := None |}
           {| servicingManifests :=
                [Manifest_toObject
                   {| identification :=
                        {| id_speakerUri := pa_speakerUri options;
                           id_serviceUrl := pa_serviceUrl options;
                           organization :=
                             match pa_organization options with
                             | Some given => given
                             | None => "OpenFloor Demo"
                             end;
                           conversationalName :=
                             match pa_name options with
                             | Some given => given
                             | None => "Parrot Agent"
                             end;
                           synopsis :=
                             match pa_description options with
                             | Some given => given
                             | None =>
                                 "A simple parrot agent that echoes back messages with a parrot emoji"
                             end |};
                      capabilities :=
                        [ {| keyphrases := ["echo"; "repeat"; "parrot"; "say"];
                             descriptions :=
                               [ "Echoes back any text message with a parrot emoji";
                                 "Repeats user input verbatim";
                                 "Simple text mirroring functionality" ] |} ] |}] |}].
Proof.
  intros Hto Hev.
  assert (Haddr : addressedToMe (createParrotAgent options)
                    (OtherEvent "getManifests" to) = true).
  { unfold addressedToMe. simpl.
    destruct Hto as [-> | (t & -> & Ht)]; [done|].
    apply orb_true_iff. rewrite !bool_decide_eq_true. exact Ht. }
  eexists. rewrite processEnvelope_exact, Hev. simpl.
  unfold logged, spec_respond. rewrite Haddr. simpl.
  split; [by rewrite app_nil_r|]. split; [done|].
  unfold events. simpl. unfold publish_manifests, reply_to. simpl.
  by destruct (pa_organization options), (pa_name options),
       (pa_description options).
Qed.

(** An agent configured with an empty name and no organization, asked at
    its serviceUrl. *)
Lemma X9_witness :
  ∃ out,
    ParrotAgentTs.processEnvelope
      (createParrotAgent
         {| pa_speakerUri := "tag:example.com,2025:echo";
            pa_serviceUrl := "https://example.com/echo";
            pa_name := Some "";
            pa_organization := None;
            pa_description := None |})
      (envelope_of
         [OtherEvent "getManifests"
            (Some {| to_speakerUri := None;
                     to_serviceUrl := Some "https://example.com/echo" |})]) []
    = (Normal out, [])
    ∧ sender out = {| sender_speakerUri := "tag:example.com,2025:echo";
                      sender_serviceUrl := Some "https://example.com/echo" |}
    ∧ events out
      = [EventObject "publishManifests"
           {| to_speakerUri := Some "tag:example.com,2025:user";
              to_serviceUrl := None |}
           {| servicingManifests :=
                [Manifest_toObject
                   {| identification :=
                        {| id_speakerUri := "tag:example.com,2025:echo";
                           id_serviceUrl := "https://example.com/echo";
                           organization := "OpenFloor Demo";
                           conversationalName := "";
                           synopsis :=
                             "A simple parrot agent that echoes back messages with a parrot emoji" |};
                      capabilities :=
                        [ {| keyphrases := ["echo"; "repeat"; "parrot"; "say"];
                             descriptions :=
                               [ "Echoes back any text message with a parrot emoji";
                                 "Repeats user input verbatim";
                                 "Simple text mirroring functionality" ] |} ] |}] |}].
Proof.
  refine (X9_configured_manifest_is_published
            {| pa_speakerUri := "tag:example.com,2025:echo";
               pa_serviceUrl := "https://example.com/echo";
               pa_name := Some "";
               pa_organization := None;
               pa_description := None |}
            (envelope_of
               [OtherEvent "getManifests"
                  (Some {| to_speakerUri := None;
                           to_serviceUrl := Some "https://example.com/echo" |})])
            (Some {| to_speakerUri := None;
                     to_serviceUrl := Some "https://example.com/echo" |}) [] _ _).
  - right. eexists. split; [reflexivity|]. right. reflexivity.
  - reflexivity.
Defined.

(** ** Beyond the claims: the earlier variant on every envelope *)

Lemma spec_echo_transform_is_text this inEnvelope event :
  is_text_utterance (spec_echo_transform this inEnvelope event) = true.
Proof.
  destruct (spec_echo_transform_utterance this inEnvelope event) as [options ->].
  done.
Qed.

Lemma filter_flat_map {A B : Type} (p : B → bool) (f : A → list B) (l : list A) :
  List.filter p (flat_map f l) = flat_map (λ x, List.filter p (f x)) l.
Proof.
  induction l as [|x l IH]; [done|].
  simpl. by rewrite List.filter_app, IH.
Qed.

(** One turn of the earlier variant's loop appends the text utterances
    among the responses of the deployed agent, and logs as it does. *)
Lemma alt_processEnvelope_body_exact this inEnvelope outEnvelope event c :
  ParrotAgentAlt.processEnvelope_body this inEnvelope outEnvelope event c
  = (Normal (set__events outEnvelope
               (events outEnvelope
                  ++ List.filter is_text_utterance
                       (spec_respond this inEnvelope event))),
     c ++ logged this event).
Proof.
  unfold ParrotAgentAlt.processEnvelope_body, spec_respond, logged.
  destruct (addressedToMe this event);
    [|simpl; by rewrite !app_nil_r, set__events_events].
  destruct event as [u|eventType to]; simpl.
  - rewrite alt_handleParrotUtterance_run, handleParrotUtterance_exact.
    by rewrite spec_echo_transform_is_text.
  - rewrite app_nil_r. unfold mret, M_ret.
    case_bool_decide; simpl; by rewrite app_nil_r, set__events_events.
Qed.

Lemma alt_for_of_exact this inEnvelope (l : list Event) :
  ∀ outEnvelope c,
    for_of l (ParrotAgentAlt.processEnvelope_body this inEnvelope) outEnvelope c
    = (Normal (set__events outEnvelope
                 (events outEnvelope
                    ++ List.filter is_text_utterance
                         (flat_map (spec_respond this inEnvelope) l))),
       c ++ flat_map (logged this) l).
Proof.
  induction l as [|event l IH]; intros outEnvelope c.
  - simpl. unfold mret, M_ret. by rewrite !app_nil_r, set__events_events.
  - simpl. erewrite bind_normal; [|apply alt_processEnvelope_body_exact].
    rewrite IH. unfold set__events, events.
    cbn [_events schema conversation sender].
    by rewrite List.filter_app, <- !app_assoc.
Qed.

(** X10: on every inbound envelope the earlier variant returns what the
    deployed agent returns with the event list cut down to the text
    utterances, in the same order: it never throws, answers utterances
    alike, answers no getManifests request, and makes the same
    [console.error] calls. *)
Theorem X10_earlier_variant_drops_manifest_replies
    (this : ParrotAgent) (inEnvelope : Envelope Event) (c : Console) :
  ∃ out c',
    ParrotAgentTs.processEnvelope this inEnvelope c = (Normal out, c')
    ∧ ParrotAgentAlt.processEnvelope this inEnvelope c
      = (Normal (set__events out (List.filter is_text_utterance (events out))), c').
Proof.
  eexists _, _. split; [apply processEnvelope_exact|].
  unfold ParrotAgentAlt.processEnvelope. rewrite alt_for_of_exact. done.
Qed.

(** X11: the handler of the earlier variant changes the envelope it is
    given in one way only: it puts the response of the deployed handler
    after the events the envelope already holds; the schema, conversation,
    sender and earlier events stay, and the handler does not throw. *)
Theorem X11_earlier_handler_appends_one_event
    (this : ParrotAgent) (event : UtteranceEvent) (inEnvelope : Envelope Event)
    (outEnvelope : Envelope ResponseEvent) (c : Console) :
  ∃ response c',
    ParrotAgentTs._handleParrotUtterance this event inEnvelope c
    = (Normal response, c')
    ∧ ParrotAgentAlt._handleParrotUtterance this event inEnvelope outEnvelope c
      = (Normal (new_Envelope (schema outEnvelope) (conversation outEnvelope)
                   (sender outEnvelope) (events outEnvelope ++ [response])),
         c').
Proof.
  eexists _, _. split; [apply handleParrotUtterance_exact|].
  by rewrite alt_handleParrotUtterance_run, handleParrotUtterance_exact.
Qed.

(** ** Beyond the claims: the CORS middleware of the server *)

(** Going through the members of an explicit list. *)
Ltac members H :=
  repeat (apply elem_of_cons in H as [H|H]; [try discriminate H|]);
  try (by apply elem_of_nil in H).

(** X12: the middleware answers the OPTIONS requests and only those: for
    the method OPTIONS, whatever the origin, its last call is
    [res.sendStatus(200)] and [next()] is not called; for every other
    method it calls [next()] and does nothing to the response but, at
    most, set headers. *)
Theorem X12_cors_answers_preflight_only {Json : Type} (req : Request Json) :
  ((cors_middleware req).2 = Answered ↔ req_method req = "OPTIONS")
  ∧ (req_method req = "OPTIONS" →
     ∃ headers,
       (cors_middleware req).1 = headers ++ [res_sendStatus 200]
       ∧ Forall (λ call, ∃ field value, call = res_header field value) headers)
  ∧ (req_method req ≠ "OPTIONS" →
     (cors_middleware req).2 = Next
     ∧ Forall (λ call, ∃ field value, call = res_header field value)
              (cors_middleware req).1).
Proof.
  unfold cors_middleware. cbv zeta.
  assert (Hheaders :
            Forall (λ call, ∃ field value, call = res_header field value)
              (if bool_decide (req_origin req = Some allowedOrigin)
               then [ res_header "Access-Control-Allow-Origin" allowedOrigin;
                      res_header "Access-Control-Allow-Methods" "POST, OPTIONS";
                      res_header "Access-Control-Allow-Headers" "Content-Type" ]
               else [])).
  { case_bool_decide; repeat constructor; by eexists _, _. }
  revert Hheaders.
  generalize (if bool_decide (req_origin req = Some allowedOrigin)
              then [ res_header "Access-Control-Allow-Origin" allowedOrigin;
                     res_header "Access-Control-Allow-Methods" "POST, OPTIONS";
                     res_header "Access-Control-Allow-Headers" "Content-Type" ]
              else []) as headers.
  intros headers Hheaders.
  case_bool_decide as Hmethod; simpl.
  - split; [by split|]. split; [|done]. intros _. by exists headers.
  - split; [by split|]. split; [done|]. done.
Qed.

(** A preflight from an origin that is not allowed is answered all the
    same, without headers; a POST goes on. *)
Lemma X12_witness :
  (∃ headers,
     (cors_middleware (preflight_request (Some "https://evil.example"))).1
     = headers ++ [res_sendStatus 200]
     ∧ Forall (λ call, ∃ field value, call = res_header field value) headers)
  ∧ (cors_middleware (post_request None "{}")).2 = Next.
Proof.
  split.
  - apply (proj1 (proj2 (X12_cors_answers_preflight_only
                           (preflight_request (Some "https://evil.example"))))).
    reflexivity.
  - apply (proj2 (proj2 (X12_cors_answers_preflight_only (post_request None "{}")))).
    discriminate.
Defined.

(** X13: the CORS headers are set for one origin only.  A request whose
    Origin header is exactly "https://openfloor.azettl.net" gets the three
    Access-Control headers first; a request with any other origin, or with
    none, gets no header at all; and the Access-Control-Allow-Origin header
    never carries anything but that one origin. *)
Theorem X13_cors_headers_for_the_allowed_origin_only
    {Json : Type} (req : Request Json) :
  (req_origin req = Some "https://openfloor.azettl.net" →
   ∃ rest,
     (cors_middleware req).1
     = [ res_header "Access-Control-Allow-Origin" "https://openfloor.azettl.net";
         res_header "Access-Control-Allow-Methods" "POST, OPTIONS";
         res_header "Access-Control-Allow-Headers" "Content-Type" ] ++ rest)
  ∧ (req_origin req ≠ Some "https://openfloor.azettl.net" →
     ∀ field value, res_header field value ∉ (cors_middleware req).1)
  ∧ (∀ value,
       res_header "Access-Control-Allow-Origin" value ∈ (cors_middleware req).1 →
       value = "https://openfloor.azettl.net" ∧ req_origin req = Some value).
Proof.
  unfold cors_middleware, allowedOrigin.
  split; [|split].
  - intros Horigin. rewrite (bool_decide_eq_true_2 _ Horigin).
    case_bool_decide; by eexists.
  - intros Horigin field value. rewrite (bool_decide_eq_false_2 _ Horigin).
    case_bool_decide; simpl; intros Hin; members Hin.
  - intros value.
    repeat case_bool_decide; simpl; intros Hin; members Hin;
      by injection Hin as ->.
Qed.

(** The allowed origin, the same host over http, and no origin. *)
Lemma X13_witness :
  (∃ rest,
     (cors_middleware (post_request (Some "https://openfloor.azettl.net") "{}")).1
     = [ res_header "Access-Control-Allow-Origin" "https://openfloor.azettl.net";
         res_header "Access-Control-Allow-Methods" "POST, OPTIONS";
         res_header "Access-Control-Allow-Headers" "Content-Type" ] ++ rest)
  ∧ (∀ field value,
       res_header field value
       ∉ (cors_middleware (post_request (Some "http://openfloor.azettl.net") "{}")).1)
  ∧ (∀ field value,
       res_header field value ∉ (cors_middleware (preflight_request None)).1).
Proof.
  split; [|split].
  - apply (proj1 (X13_cors_headers_for_the_allowed_origin_only
                    (post_request (Some "https://openfloor.azettl.net") "{}"))).
    reflexivity.
  - apply (proj1 (proj2 (X13_cors_headers_for_the_allowed_origin_only
                           (post_request (Some "http://openfloor.azettl.net") "{}")))).
    discriminate.
  - apply (proj1 (proj2 (X13_cors_headers_for_the_allowed_origin_only
                           (preflight_request None)))).
    discriminate.
Defined.

(** ** Beyond the claims: the POST route of the server *)

Section PostRoute.
Variable Json : Type.
Variable JSON_stringify : Json → string.
Variable JSON_stringify_indented : Json → string.
Variable validateAndParsePayload : string → M ValidationResult.
Variable SERVICE_URL : option string.

(** The route and its [try] block over these parts. *)
Local Abbreviation route_try :=
  (post_root_try Json JSON_stringify JSON_stringify_indented
     validateAndParsePayload SERVICE_URL).
Local Abbreviation route :=
  (post_root Json JSON_stringify JSON_stringify_indented
     validateAndParsePayload SERVICE_URL).

Lemma post_root_try_unfold (req : Request Json) (c : Console) :
  route_try req c
  = match validateAndParsePayload (JSON_stringify (req_body req)) c with
    | (Abrupt e, c1) => (Abrupt e, c1)
    | (Normal validationResult, c1) =>
        if negb (valid validationResult)
        then (Normal [ res_status 400;
                       res_json (InvalidPayloadBody "Invalid OpenFloor payload"
                                   (errors validationResult)) ],
              c1 ++ [StringsLogged "Validation errors:" (errors validationResult)])
        else
          match payload validationResult with
          | None =>
              (Abrupt (ThrownError
                         (TypeError
                            "Cannot read properties of undefined (reading 'openFloor')")),
               c1)
          | Some p =>
              (Normal [ res_json
                          (PayloadBody
                             (Payload_toObject
                                (new_Envelope
                                   {| version := version (schema (openFloor p)) |}
                                   {| id := id (conversation (openFloor p)) |}
                                   {| sender_speakerUri :=
                                        speakerUri (parrotAgent SERVICE_URL);
                                      sender_serviceUrl :=
                                        Some (serviceUrl (parrotAgent SERVICE_URL)) |}
                                   (flat_map
                                      (spec_respond (parrotAgent SERVICE_URL)
                                         (openFloor p))
                                      (events (openFloor p)))))) ],
               c1 ++ flat_map (logged (parrotAgent SERVICE_URL))
                       (events (openFloor p)))
          end
    end.
Proof.
  unfold post_root_try.
  erewrite bind_normal; [|reflexivity].
  unfold mbind at 1, M_bind at 1.
  destruct (validateAndParsePayload (JSON_stringify (req_body req)) c)
    as [[validationResult|e] c1]; [|done].
  destruct (valid validationResult); simpl.
  - destruct (payload validationResult) as [p|]; simpl; [|done].
    erewrite bind_normal; [|reflexivity].
    erewrite bind_normal; [|reflexivity].
    erewrite bind_normal; [|apply processEnvelope_exact].
    done.
  - done.
Qed.

(** X14: a body the library's validation reports as not valid is answered
    with status 400 and the JSON [{error: 'Invalid OpenFloor payload',
    details}] whose details are the validation errors; the errors are
    passed to [console.error], and the agent is not run on it, whatever
    the result holds as payload. *)
Theorem X14_invalid_payload_gets_400
    (req : Request Json) (c c1 : Console) (validationResult : ValidationResult) :
  validateAndParsePayload (JSON_stringify (req_body req)) c
  = (Normal validationResult, c1) →
  valid validationResult = false →
  route req c
  = (Normal [ res_status 400;
              res_json (InvalidPayloadBody "Invalid OpenFloor payload"
                          (errors validationResult)) ],
     c1 ++ [StringsLogged "Validation errors:" (errors validationResult)]).
Proof.
  intros Hvalidate Hvalid. unfold post_root.
  apply try_catch_normal. rewrite post_root_try_unfold, Hvalidate, Hvalid. done.
Qed.

(** X15: a body the validation accepts is answered with the serialized
    envelope [processEnvelope] returns for the parsed envelope, in one
    [res.json] call and without any [res.status] call, and the
    [console.error] calls are those of the agent: malformed tokens in it
    give the confused chirp inside that answer, not an error status. *)
Theorem X15_valid_payload_gets_the_agents_envelope
    (req : Request Json) (c c1 : Console) (validationResult : ValidationResult)
    (p : Payload) :
  validateAndParsePayload (JSON_stringify (req_body req)) c
  = (Normal validationResult, c1) →
  valid validationResult = true →
  payload validationResult = Some p →
  ∃ out c2,
    ParrotAgentTs.processEnvelope (parrotAgent SERVICE_URL) (openFloor p) c1
    = (Normal out, c2)
    ∧ route req c = (Normal [res_json (PayloadBody (Payload_toObject out))], c2).
Proof.
  intros Hvalidate Hvalid Hpayload.
  eexists _, _. split; [apply processEnvelope_exact|].
  unfold post_root. apply try_catch_normal.
  rewrite post_root_try_unfold, Hvalidate, Hvalid, Hpayload. done.
Qed.

(** X16: the route never throws, and it answers in one of three ways: one
    [res.json] call with a serialized envelope; status 400 with the
    invalid-payload body; status 500 with the body [{error: 'Internal
    server error', message}]. *)
Theorem X16_post_route_always_answers (req : Request Json) (c : Console) :
  ∃ calls c',
    route req c = (Normal calls, c')
    ∧ ((∃ response, calls = [res_json (PayloadBody response)])
       ∨ (∃ details,
            calls = [ res_status 400;
                      res_json (InvalidPayloadBody "Invalid OpenFloor payload"
                                  details) ])
       ∨ (∃ message,
            calls = [ res_status 500;
                      res_json (ServerErrorBody "Internal server error" message) ])).
Proof.
  unfold post_root, try_catch. rewrite post_root_try_unfold.
  destruct (validateAndParsePayload (JSON_stringify (req_body req)) c)
    as [[validationResult|e] c1].
  - destruct (valid validationResult); simpl.
    + destruct (payload validationResult) as [p|].
      * eexists _, _. split; [reflexivity|]. left. by eexists.
      * eexists _, _. split; [reflexivity|]. right; right. by eexists.
    + eexists _, _. split; [reflexivity|]. right; left. by eexists.
  - eexists _, _. split; [reflexivity|]. right; right. by eexists.
Qed.

(** X17: what the route does with a failure of the library.  When the
    validation throws, the route answers status 500 with the body [{error:
    'Internal server error', message}], where the message is the message
    of the thrown [Error], or 'Unknown error' when the thrown value is no
    [Error]; the caught value is passed to [console.error].  A result
    that is reported valid but holds no payload ends the same way, with
    the [TypeError] of reading [openFloor] of [undefined]. *)
Theorem X17_library_failure_gets_500 (req : Request Json) (c : Console) :
  (∀ e c1,
     validateAndParsePayload (JSON_stringify (req_body req)) c
     = (Abrupt (ThrownError e), c1) →
     route req c
     = (Normal [ res_status 500;
                 res_json (ServerErrorBody "Internal server error" (message e)) ],
        c1 ++ [ErrorLogged "Error processing request:" (ThrownError e)]))
  ∧ (∀ value c1,
       validateAndParsePayload (JSON_stringify (req_body req)) c
       = (Abrupt (ThrownValue value), c1) →
       route req c
       = (Normal [ res_status 500;
                   res_json (ServerErrorBody "Internal server error"
                               "Unknown error") ],
          c1 ++ [ErrorLogged "Error processing request:" (ThrownValue value)]))
  ∧ (∀ validationResult c1,
       validateAndParsePayload (JSON_stringify (req_body req)) c
       = (Normal validationResult, c1) →
       valid validationResult = true →
       payload validationResult = None →
       route req c
       = (Normal [ res_status 500;
                   res_json (ServerErrorBody "Internal server error"
                               "Cannot read properties of undefined (reading 'openFloor')") ],
          c1 ++ [ErrorLogged "Error processing request:"
                   (ThrownError
                      (TypeError
                         "Cannot read properties of undefined (reading 'openFloor')"))])).
Proof.
  unfold post_root, try_catch. rewrite post_root_try_unfold.
  split; [|split].
  - by intros e c1 ->.
  - by intros value c1 ->.
  - by intros validationResult c1 -> -> ->.
Qed.

End PostRoute.

(** A body that is rejected. *)
Lemma X14_witness :
  post_root string (λ body, body) (λ body, body) reject_all None
    (post_request None "{}") []
  = (Normal [ res_status 400;
              res_json (InvalidPayloadBody "Invalid OpenFloor payload"
                          ["not an Open Floor payload"]) ],
     [StringsLogged "Validation errors:" ["not an Open Floor payload"]]).
Proof.
  refine (X14_invalid_payload_gets_400 string (λ body, body) (λ body, body)
            reject_all None (post_request None "{}") [] []
            {| valid := false; payload := None;
               errors := ["not an Open Floor payload"] |} _ _);
    reflexivity.
Defined.

(** A body accepted as an envelope with a [null] token: the answer is the
    envelope with the confused chirp, and the only call is [res.json]. *)
Lemma X15_witness :
  ∃ out c2,
    ParrotAgentTs.processEnvelope (parrotAgent None)
      (envelope_of [Utterance broken_utterance]) [] = (Normal out, c2)
    ∧ post_root string (λ body, body) (λ body, body)
        (accept_as (envelope_of [Utterance broken_utterance])) None
        (post_request None "{}") []
      = (Normal [res_json (PayloadBody (Payload_toObject out))], c2).
Proof.
  refine (X15_valid_payload_gets_the_agents_envelope string (λ body, body)
            (λ body, body) (accept_as (envelope_of [Utterance broken_utterance]))
            None (post_request None "{}") [] []
            {| valid := true;
               payload := Some {| openFloor := envelope_of [Utterance broken_utterance] |};
               errors := [] |}
            {| openFloor := envelope_of [Utterance broken_utterance] |} _ _ _);
    reflexivity.
Defined.

(** A validation that throws an [Error], one that throws a string, and one
    that forgets the payload. *)
Lemma X17_witness :
  post_root string (λ body, body) (λ body, body) failing_validator None
    (post_request None "{}") []
  = (Normal [ res_status 500;
              res_json (ServerErrorBody "Internal server error"
                          "payload could not be read") ],
     [ErrorLogged "Error processing request:"
        (ThrownError (TypeError "payload could not be read"))])
  ∧ post_root string (λ body, body) (λ body, body) string_throwing_validator None
      (post_request None "{}") []
    = (Normal [ res_status 500;
                res_json (ServerErrorBody "Internal server error" "Unknown error") ],
       [ErrorLogged "Error processing request:"
          (ThrownValue "payload could not be read")])
  ∧ post_root string (λ body, body) (λ body, body) forgetful_validator None
      (post_request None "{}") []
    = (Normal [ res_status 500;
                res_json (ServerErrorBody "Internal server error"
                            "Cannot read properties of undefined (reading 'openFloor')") ],
       [ErrorLogged "Error processing request:"
          (ThrownError
             (TypeError
                "Cannot read properties of undefined (reading 'openFloor')"))]).
Proof.
  split; [|split].
  - refine (proj1 (X17_library_failure_gets_500 string (λ body, body)
                     (λ body, body) failing_validator None
                     (post_request None "{}") [])
              (TypeError "payload could not be read") [] _).
    reflexivity.
  - refine (proj1 (proj2 (X17_library_failure_gets_500 string (λ body, body)
                            (λ body, body) string_throwing_validator None
                            (post_request None "{}") []))
              "payload could not be read" [] _).
    reflexivity.
  - refine (proj2 (proj2 (X17_library_failure_gets_500 string (λ body, body)
                            (λ body, body) forgetful_validator None
                            (post_request None "{}") []))
              {| valid := true; payload := None; errors := [] |} [] _ _ _);
      reflexivity.
Defined.

(** X18: the agent of the server takes its serviceUrl from the
    environment: a [SERVICE_URL] that is set and not empty is used as it
    is; one that is unset or empty gives the built-in URL, so the
    serviceUrl is never empty.  The speakerUri is fixed. *)
Theorem X18_service_url_from_the_environment (SERVICE_URL : option string) :
  speakerUri (parrotAgent SERVICE_URL) = "tag:openfloor-demo.com,2025:parrot-agent"
  ∧ serviceUrl (parrotAgent SERVICE_URL) ≠ ""
  ∧ (∀ url, SERVICE_URL = Some url → url ≠ "" →
            serviceUrl (parrotAgent SERVICE_URL) = url)
  ∧ (SERVICE_URL = None ∨ SERVICE_URL = Some "" →
     serviceUrl (parrotAgent SERVICE_URL)
     = "https://kmhhywpw32.us-east-1.awsapprunner.com/").
Proof.
  unfold parrotAgent, serviceUrl, speakerUri, createParrotAgent, env_or. simpl.
  split; [done|]. split; [|split].
  - destruct SERVICE_URL as [url|]; [|done]. by case_bool_decide.
  - intros url -> Hurl. by rewrite bool_decide_eq_false_2.
  - by intros [-> | ->].
Qed.

(** A configured URL, and the empty one. *)
Lemma X18_witness :
  serviceUrl (parrotAgent (Some "https://parrot.example/")) = "https://parrot.example/"
  ∧ serviceUrl (parrotAgent (Some ""))
    = "https://kmhhywpw32.us-east-1.awsapprunner.com/".
Proof.
  split.
  - apply (proj1 (proj2 (proj2 (X18_service_url_from_the_environment
                                  (Some "https://parrot.example/"))))
             "https://parrot.example/" eq_refl).
    discriminate.
  - apply (proj2 (proj2 (proj2 (X18_service_url_from_the_environment (Some ""))))).
    right. reflexivity.
Defined.
